(** * Verification of the bit-banging SPI master of ziutek/bitbang

    Shallow embedding of [spi/spi.go] (the [Master] type: Configure, Begin,
    End, writeByte, Write, WriteString, WriteByte, WriteN, Read, ReadN) and
    of the reader side of the later revision of the same package that adds
    flush marks and the [discard] helper.

    Go values are modelled as follows: a [byte] is a [Z] (every operation the
    code applies to bytes, [|], [&], [^], stays inside [0,256) on byte
    inputs); Go's [uint] is a [Z] as well (the shifts of the encoder and the
    decoder never exceed 16 bits, so the 64-bit wrap-around never happens);
    slices are lists.  Side effects go through a small state monad whose
    outcome is either a normal return, a Go panic (or fatal runtime error)
    together with the state reached at that point, or a goroutine blocked
    forever. *)

From Stdlib Require Import ZArith String Ascii List Lia Bool.
Import ListNotations.
Open Scope Z_scope.

(** ** Outcomes and the monad *)

Inductive outcome (S A : Type) : Type :=
| Ret (a : A) (s : S)
| Panic (msg : string) (s : S)
| Block (s : S).
Arguments Ret {S A} a s.
Arguments Panic {S A} msg s.
Arguments Block {S A} s.

Definition st (S A : Type) := S -> outcome S A.

Definition ret {S A} (a : A) : st S A := fun s => Ret a s.

Definition bind {S A B} (m : st S A) (k : A -> st S B) : st S B :=
  fun s => match m s with
           | Ret a s' => k a s'
           | Panic msg s' => Panic msg s'
           | Block s' => Block s'
           end.

Definition panic {S A} (msg : string) : st S A := fun s => Panic msg s.

Notation "x <- m ;; k" := (bind m (fun x => k))
  (at level 61, m at next level, right associativity).
Notation "m ;;; k" := (bind m (fun _ => k))
  (at level 61, right associativity).

(** The state a computation ended in, whatever the way it ended. *)
Definition final {S A} (o : outcome S A) : S :=
  match o with Ret _ s | Panic _ s | Block s => s end.

(** ** Errors *)

Inductive error :=
| ErrDriver          (* error reported by the driver *)
| EOF                (* io.EOF *)
| ErrUnexpectedEOF.  (* io.ErrUnexpectedEOF *)

Definition error_eq_dec (a b : error) : {a = b} + {a <> b}.
Proof. decide equality. Defined.

(** ** The synchronous driver (write side)

    [dout] is the sequence of bytes handed to the driver's [Write] so far.
    [dfail] describes the driver: [None] never fails; [Some k] accepts [k]
    more [Write] calls and then fails every call (nothing of a failed call is
    written; [Flush] of a failed driver fails too). *)

Record Driver := mkDriver { dout : list Z; dfail : option nat }.

(** ** The coordinator channel [tord]

    [tq] is the sequence of directives sent on the channel.  [tst] tells
    whether the channel is open, has been closed, or (part_002's [werror]:
    [ma.tord = nil]) has been replaced by the nil channel.  [tfull i] is
    the concurrent reader's schedule: whether, when the writer is about to
    send its [i]-th directive ([i = len tq]), the channel's buffer holds
    [cap(ma.tord)] = 256 directives the reader has not received yet
    ([len(ma.tord) == cap(ma.tord)]).  A send on a full channel waits for the
    reader to receive one; the reader model of this file takes the
    directives in [tq] after the writer is done. *)

Inductive chan_state := Open | Closed | Nil.

Record Coord := mkCoord { tq : list Z; tst : chan_state; tfull : nat -> bool }.

(** A fresh channel whose reader keeps up. *)
Definition new_chan : Coord := mkCoord [] Open (fun _ => false).

(** ** The [Master] structure of spi.go *)

Record Master := mkMaster {
  drv : Driver;
  tord : Coord;
  werr : option error;
  wmtx : bool;          (* the write mutex is held *)
  fn : Z;
  pre : list Z;
  post : list Z;
  sclk : Z; mosi : Z; miso : Z; base : Z;
  cidle : Z; cfirst : Z; cpha1 : bool; lsbf : bool; flen : Z; delay : Z }.

Definition set_drv d s :=
  mkMaster d (tord s) (werr s) (wmtx s) (fn s) (pre s) (post s)
    (sclk s) (mosi s) (miso s) (base s)
    (cidle s) (cfirst s) (cpha1 s) (lsbf s) (flen s) (delay s).
Definition set_tord c s :=
  mkMaster (drv s) c (werr s) (wmtx s) (fn s) (pre s) (post s)
    (sclk s) (mosi s) (miso s) (base s)
    (cidle s) (cfirst s) (cpha1 s) (lsbf s) (flen s) (delay s).
Definition set_werr e s :=
  mkMaster (drv s) (tord s) e (wmtx s) (fn s) (pre s) (post s)
    (sclk s) (mosi s) (miso s) (base s)
    (cidle s) (cfirst s) (cpha1 s) (lsbf s) (flen s) (delay s).
Definition set_wmtx b s :=
  mkMaster (drv s) (tord s) (werr s) b (fn s) (pre s) (post s)
    (sclk s) (mosi s) (miso s) (base s)
    (cidle s) (cfirst s) (cpha1 s) (lsbf s) (flen s) (delay s).
Definition set_fn n s :=
  mkMaster (drv s) (tord s) (werr s) (wmtx s) n (pre s) (post s)
    (sclk s) (mosi s) (miso s) (base s)
    (cidle s) (cfirst s) (cpha1 s) (lsbf s) (flen s) (delay s).
Definition set_flen n s :=
  mkMaster (drv s) (tord s) (werr s) (wmtx s) (fn s) (pre s) (post s)
    (sclk s) (mosi s) (miso s) (base s)
    (cidle s) (cfirst s) (cpha1 s) (lsbf s) n (delay s).
Definition set_prepost p q s :=
  mkMaster (drv s) (tord s) (werr s) (wmtx s) (fn s) p q
    (sclk s) (mosi s) (miso s) (base s)
    (cidle s) (cfirst s) (cpha1 s) (lsbf s) (flen s) (delay s).
Definition set_base b s :=
  mkMaster (drv s) (tord s) (werr s) (wmtx s) (fn s) (pre s) (post s)
    (sclk s) (mosi s) (miso s) b
    (cidle s) (cfirst s) (cpha1 s) (lsbf s) (flen s) (delay s).
Definition set_mode ci cf c1 ls s :=
  mkMaster (drv s) (tord s) (werr s) (wmtx s) (fn s) (pre s) (post s)
    (sclk s) (mosi s) (miso s) (base s)
    ci cf c1 ls (flen s) (delay s).
Definition set_delay d s :=
  mkMaster (drv s) (tord s) (werr s) (wmtx s) (fn s) (pre s) (post s)
    (sclk s) (mosi s) (miso s) (base s)
    (cidle s) (cfirst s) (cpha1 s) (lsbf s) (flen s) d.

Definition M := st Master.

Definition get : M Master := fun s => Ret s s.
Definition modify (f : Master -> Master) : M unit := fun s => Ret tt (f s).

(** ** Mode and Config *)

Definition MSBF := 0.
Definition LSBF := 1.
Definition CPOL0 := 0.
Definition CPOL1 := 2.
Definition CPHA0 := 0.
Definition CPHA1 := 4.

Record Config := mkConfig { Mode : Z; FrameLen : Z; Delay : Z }.

(** [NewMaster] / [init]: the zero [Master] with the three masks. *)
Definition NewMaster (d : Driver) (sclk' mosi' miso' : Z) : outcome Master unit :=
  let ma := mkMaster d new_chan None false 0 [] []
              sclk' mosi' miso' 0 0 0 false false 0 0 in
  if negb (Z.land sclk' mosi' =? 0)
  then Panic "spi.Master.init: scln&mosi != 0" ma
  else Ret tt ma.

Definition SetPrePost (p q : list Z) : M unit := modify (set_prepost p q).

Definition SetBase (b : Z) : M unit := modify (set_base b).

Definition Configure (cfg : Config) : M unit :=
  fun s =>
    let c1 := negb (Z.land (Mode cfg) CPHA1 =? 0) in
    let '(ci, cf) :=
      if Z.land (Mode cfg) CPOL1 =? 0
      then (0, if c1 then sclk s else 0)
      else (sclk s, if c1 then 0 else sclk s) in
    let ls := negb (Z.land (Mode cfg) LSBF =? 0) in
    let s1 := set_mode ci cf c1 ls s in
    if (Delay cfg <? 0) || (8 <? Delay cfg) then Panic "Delay < 0 || cfg.Delay > 8" s1
    else if FrameLen cfg <=? 0 then Panic "FrameLen <= 0" s1
    else Ret tt (set_delay (Delay cfg) (set_flen (- FrameLen cfg) s1)).

(** [Mode.String]: the [switch] over the eight mode values. *)
Definition Mode_String (m : Z) : string :=
  if m =? Z.lor (Z.lor MSBF CPOL0) CPHA0 then "M00"
  else if m =? Z.lor (Z.lor MSBF CPOL0) CPHA1 then "M01"
  else if m =? Z.lor (Z.lor MSBF CPOL1) CPHA0 then "M10"
  else if m =? Z.lor (Z.lor MSBF CPOL1) CPHA1 then "M11"
  else if m =? Z.lor (Z.lor LSBF CPOL0) CPHA0 then "L00"
  else if m =? Z.lor (Z.lor LSBF CPOL0) CPHA1 then "L01"
  else if m =? Z.lor (Z.lor LSBF CPOL1) CPHA0 then "L10"
  else if m =? Z.lor (Z.lor LSBF CPOL1) CPHA1 then "L11"
  else "unknown".

(** ** Bit encoding: the loop of [writeByte] (and of [WriteN])

    [for i := 0; i < len(buf); i += 2 { ... }] on a 16-byte buffer: eight
    iterations, each emitting [out] and [out ^ sclk]. *)

Fixpoint enc_loop (s : Master) (mask : Z) (k : nat) (u : Z) : list Z :=
  match k with
  | O => []
  | S k' =>
      let out := Z.lor (base s) (cfirst s) in
      let out := if negb (Z.land mask u =? 0) then Z.lor out (mosi s) else out in
      out :: Z.lxor out (sclk s)
          :: enc_loop s mask k' (if lsbf s then Z.shiftr u 1 else Z.shiftl u 1)
  end.

(** The [mask] computed by Write, WriteString, WriteByte and WriteN. *)
Definition first_mask (s : Master) : Z := if lsbf s then 1 else 128.

Definition encode (s : Master) (b : Z) : list Z := enc_loop s (first_mask s) 8 b.

(** ** Bit decoding: the loop of [Read]

    [for i := 1; i < len(buf); i += 2] samples [buf[1], buf[3], ...,
    buf[15]]; [data[k] = byte(u)] truncates to 8 bits. *)

Fixpoint dec_loop (ls : bool) (miso' : Z) (buf : list Z) (u : Z) : Z :=
  match buf with
  | _ :: x :: rest =>
      let u := if ls then Z.shiftr u 1 else Z.shiftl u 1 in
      let u := if negb (Z.land x miso' =? 0)
               then Z.lor u (if ls then 128 else 1) else u in
      dec_loop ls miso' rest u
  | _ => u
  end.

Definition decode (ls : bool) (miso' : Z) (buf : list Z) : Z :=
  Z.land (dec_loop ls miso' buf 0) 255.

(** ** Primitive effects of the write side *)

Definition is_none {A} (o : option A) : bool :=
  match o with None => true | Some _ => false end.

(** [ma.drv.Write(p)]; only the error result is used by the code. *)
Definition drv_write (p : list Z) : M (option error) :=
  fun s =>
    match dfail (drv s) with
    | Some O => Ret (Some ErrDriver) s
    | Some (S k) => Ret None (set_drv (mkDriver (dout (drv s) ++ p) (Some k)) s)
    | None => Ret None (set_drv (mkDriver (dout (drv s) ++ p) None) s)
    end.

(** [ma.drv.Flush()]. *)
Definition drv_flush : M (option error) :=
  fun s =>
    match dfail (drv s) with
    | Some O => Ret (Some ErrDriver) s
    | _ => Ret None s
    end.

(** [ma.tord <- int8(n)]: a send on a closed channel panics, one on the nil
    channel blocks forever. *)
Definition send (n : Z) : M unit :=
  fun s =>
    match tst (tord s) with
    | Closed => Panic "send on closed channel" s
    | Nil => Block s
    | Open => Ret tt (set_tord (mkCoord (tq (tord s) ++ [n]) Open (tfull (tord s))) s)
    end.

(** [close(ma.tord)]: closing a closed or the nil channel panics. *)
Definition close : M unit :=
  fun s =>
    match tst (tord s) with
    | Closed => Panic "close of closed channel" s
    | Nil => Panic "close of nil channel" s
    | Open => Ret tt (set_tord (mkCoord (tq (tord s)) Closed (tfull (tord s))) s)
    end.

(** [len(ma.tord) == cap(ma.tord)]: true for the nil channel ([0 == 0]). *)
Definition chan_full (c : Coord) : bool :=
  match tst c with
  | Nil => true
  | _ => tfull c (length (tq c))
  end.

Definition lock : M unit :=
  fun s => if wmtx s then Block s else Ret tt (set_wmtx true s).

Definition unlock : M unit :=
  fun s => if wmtx s then Ret tt (set_wmtx false s)
           else Panic "sync: unlock of unlocked mutex" s.

(** [werror]: latch the error and close the coordinator. *)
Definition werror (e : error) : M unit :=
  modify (set_werr (Some e));;; close.

(** [tordFlush]: when the channel is full, [ma.drv.Flush()] and return its
    error; then the range check and the send. *)
Definition tordFlush (n : Z) : M (option error) :=
  s <- get;;
  err <- (if chan_full (tord s) then drv_flush else ret None);;
  match err with
  | Some e => ret (Some e)
  | None =>
      if (127 <? n) || (n <? -128) then panic "n>127 || n<-128"
      else send n;;; ret None
  end.

(** ** Begin and End *)

Definition Begin : M (option error) :=
  lock;;;
  modify (fun s => set_flen (- flen s) s);;;
  modify (set_fn 0);;;
  s <- get;;
  let n := Z.of_nat (length (pre s)) + (if cpha1 s then 1 else 0) in
  err <- tordFlush (- n);;
  err <- (if (0 <? Z.of_nat (length (pre s))) && is_none err
          then drv_write (pre s) else ret err);;
  err <- (if cpha1 s && is_none err
          then drv_write [Z.lor (base s) (cidle s)] else ret err);;
  match err with
  | Some e => werror e;;; unlock;;; ret (Some e)
  | None => ret None
  end.

Definition End : M (option error) :=
  modify (fun s => set_flen (- flen s) s);;;
  s <- get;;
  let n := Z.of_nat (length (post s)) + (if cpha1 s then 0 else 1) in
  err <- tordFlush (- n);;
  err <- (if negb (cpha1 s) && is_none err
          then drv_write [Z.lor (base s) (cidle s)] else ret err);;
  err <- (if (0 <? Z.of_nat (length (post s))) && is_none err
          then drv_write (post s) else ret err);;
  err <- (if is_none err then drv_flush else ret err);;
  (match err with Some e => werror e | None => ret tt end);;;
  unlock;;;
  ret err.

Definition NoDelay : M unit := modify (set_fn 0).

Definition Flush : M (option error) :=
  err <- drv_flush;;
  (match err with Some e => werror e | None => ret tt end);;;
  ret err.

(** ** writeByte *)

(** [for i := 0; i < ma.delay && err == nil; i++ { _, err = ma.drv.Write(ibuf) }] *)
Fixpoint idle_loop (k : nat) (ibuf : list Z) (err : option error) : M (option error) :=
  match k with
  | O => ret err
  | S k' =>
      match err with
      | Some _ => ret err
      | None => err' <- drv_write ibuf;; idle_loop k' ibuf err'
      end
  end.

Definition incr_fn : M unit := modify (fun s => set_fn (fn s + 1) s).

(** The frame/delay prologue of [writeByte]; [Some e] is its early return. *)
Definition frame_delay : M (option error) :=
  s <- get;;
  if 0 <? delay s then
    (if fn s =? flen s then
       let idle := Z.lor (base s) (cidle s) in
       let ibuf := [idle; idle] in
       err <- tordFlush (- delay s * Z.of_nat (length ibuf));;
       err <- idle_loop (Z.to_nat (delay s)) ibuf err;;
       match err with
       | Some e => werror e;;; ret (Some e)
       | None => modify (set_fn 0);;; incr_fn;;; ret None
       end
     else incr_fn;;; ret None)
  else ret None.

Definition writeByte (b mask : Z) : M (option error) :=
  e <- frame_delay;;
  match e with
  | Some e => ret (Some e)
  | None =>
      s <- get;;
      let buf := enc_loop s mask 8 b in
      err <- tordFlush (Z.of_nat (length buf));;
      err <- (if is_none err then drv_write buf else ret err);;
      match err with
      | Some e => werror e;;; ret (Some e)
      | None => ret None
      end
  end.

(** ** Write, WriteString, WriteByte, WriteN *)

(** [for k, b := range data { if err := ma.writeByte(b, mask, &buf); ... }] *)
Fixpoint write_loop (mask : Z) (k : Z) (data : list Z) : M (option (Z * error)) :=
  match data with
  | [] => ret None
  | b :: d =>
      err <- writeByte b mask;;
      match err with
      | Some e => ret (Some (k, e))
      | None => write_loop mask (k + 1) d
      end
  end.

Definition Write (data : list Z) : M (Z * option error) :=
  s <- get;;
  if flen s <? 0 then panic "Write outside Begin:End block"
  else
    r <- write_loop (first_mask s) 0 data;;
    match r with
    | Some (k, e) => ret (k, Some e)
    | None => ret (Z.of_nat (length data), None)
    end.

(** A Go string is a sequence of bytes; [s[k]] is its [k]-th byte. *)
Definition byte_of (c : ascii) : Z := Z.of_N (N_of_ascii c).

Definition bytes_of_string (str : string) : list Z :=
  map byte_of (list_ascii_of_string str).

(** [for k := 0; k < len(s); k++ { ... s[k] ... }]; [rem] counts the
    iterations left. *)
Fixpoint ws_loop (mask : Z) (str : string) (k : nat) (rem : nat)
  : M (option (Z * error)) :=
  match rem with
  | O => ret None
  | S r =>
      match String.get k str with
      | None => ret None
      | Some c =>
          err <- writeByte (byte_of c) mask;;
          match err with
          | Some e => ret (Some (Z.of_nat k, e))
          | None => ws_loop mask str (S k) r
          end
      end
  end.

Definition WriteString (str : string) : M (Z * option error) :=
  s <- get;;
  if flen s <? 0 then panic "WriteString outside Begin:End block"
  else
    r <- ws_loop (first_mask s) str 0 (String.length str);;
    match r with
    | Some (k, e) => ret (k, Some e)
    | None => ret (Z.of_nat (String.length str), None)
    end.

Definition WriteByte (b : Z) : M (option error) :=
  s <- get;;
  if flen s <? 0 then panic "WriteByte outside Begin:End block"
  else writeByte b (first_mask s).

(** The loop of [WriteN], with its own inlined copy of the frame/delay
    prologue and of the send/write epilogue. *)
Fixpoint wn_loop (buf : list Z) (k : Z) (rem : nat) : M (option (Z * error)) :=
  match rem with
  | O => ret None
  | S r =>
      s <- get;;
      e <- (if 0 <? delay s then
              (if fn s =? flen s then
                 let idle := Z.lor (base s) (cidle s) in
                 let ibuf := [idle; idle] in
                 err <- tordFlush (- delay s * Z.of_nat (length ibuf));;
                 err <- idle_loop (Z.to_nat (delay s)) ibuf err;;
                 match err with
                 | Some e => werror e;;; ret (Some e)
                 | None => modify (set_fn 0);;; incr_fn;;; ret None
                 end
               else incr_fn;;; ret None)
            else ret None);;
      match e with
      | Some e => ret (Some (k, e))
      | None =>
          err <- tordFlush (Z.of_nat (length buf));;
          err <- (if is_none err then drv_write buf else ret err);;
          match err with
          | Some e => werror e;;; ret (Some (k, e))
          | None => wn_loop buf (k + 1) r
          end
      end
  end.

Definition WriteN (b : Z) (n : Z) : M (Z * option error) :=
  s <- get;;
  if flen s <? 0 then panic "WriteN outside Begin:End block"
  else
    let buf := enc_loop s (first_mask s) 8 b in
    r <- wn_loop buf 0 (Z.to_nat n);;
    match r with
    | Some (k, e) => ret (k, Some e)
    | None => ret (n, None)
    end.

(** ** The read side

    The reader runs on its own goroutine; its state is the receive side of
    the coordinator ([rq]: directives sent and not yet received, [rclosed]),
    the latched write error it reads after observing the close ([rwerr]),
    and the driver's read stream ([rin]: the bytes the driver will return,
    after which its [Read] reports [io.EOF]).  [rdr] is the [dr] flag of the
    later revision; spi.go does not use it.  The read-only fields [lsbf] and
    [miso] come from the [Master]. *)

Record Reader := mkReader {
  rq : list Z; rclosed : bool; rwerr : option error; rin : list Z; rdr : bool }.

Definition set_rq q r := mkReader q (rclosed r) (rwerr r) (rin r) (rdr r).
Definition set_rin i r := mkReader (rq r) (rclosed r) (rwerr r) i (rdr r).
Definition set_rdr b r := mkReader (rq r) (rclosed r) (rwerr r) (rin r) b.

Definition R := st Reader.

(** [io.ReadFull(ma.drv, buf[:k])]: the bytes read, the rest of the
    stream, and the error ([io.EOF] if nothing was read,
    [io.ErrUnexpectedEOF] if only part of it). *)
Definition read_full (k : nat) (inp : list Z) : list Z * list Z * option error :=
  if Nat.leb k (List.length inp) then (firstn k inp, skipn k inp, None)
  else match inp with
       | [] => ([], [], Some EOF)
       | _ => (inp, [], Some ErrUnexpectedEOF)
       end.

Inductive await_res := AData (m : Z) | AClosed | AErr (e : error).

(** The inner [for] loop of spi.go's [Read] and [ReadN]: receive directives,
    discarding the overhead bytes named by those that do not [brk] the loop,
    up to the first one that does.  [buf[:-m]] of the 16-byte buffer panics
    when [-m > 16]. *)
Fixpoint await_q (brk : Z -> bool) (q : list Z) : R await_res :=
  fun r =>
    match q with
    | [] => if rclosed r then Ret AClosed (set_rq [] r) else Block (set_rq [] r)
    | m :: q' =>
        let r := set_rq q' r in
        if brk m then Ret (AData m) r
        else if 16 <? - m then Panic "slice bounds out of range" r
        else
          let '(_, rest, err) := read_full (Z.to_nat (- m)) (rin r) in
          let r := set_rin rest r in
          match err with
          | Some e => Ret (AErr e) r
          | None => await_q brk q' r
          end
    end.

Definition await (brk : Z -> bool) : R await_res := fun r => await_q brk (rq r) r.

(** [io.ReadFull(ma.drv, buf[:m])] followed by the checks of spi.go. *)
Definition read_window (m : Z) : R (list Z + error) :=
  fun r =>
    if 16 <? m then Panic "slice bounds out of range" r
    else
      let '(bs, rest, err) := read_full (Z.to_nat m) (rin r) in
      let r := set_rin rest r in
      match err with
      | Some EOF => Ret (inr ErrUnexpectedEOF) r
      | Some e => Ret (inr e) r
      | None => if Nat.eqb (List.length bs) 16 then Ret (inl bs) r
                else Ret (inr ErrUnexpectedEOF) r
      end.

Definition getR : R Reader := fun r => Ret r r.

(** The outer loop of spi.go's [Read]; the list returned holds the bytes
    stored into [data[0..k)]. *)
Fixpoint read_loop (ma : Master) (k : Z) (rem : nat) : R (Z * option error * list Z) :=
  match rem with
  | O => ret (k, None, [])
  | S n =>
      a <- await (fun m => 0 <? m);;
      match a with
      | AClosed => r <- getR;; ret (k, rwerr r, [])
      | AErr e => ret (k, Some e, [])
      | AData m =>
          w <- read_window m;;
          match w with
          | inr e => ret (k, Some e, [])
          | inl bs =>
              res <- read_loop ma (k + 1) n;;
              let '(j, e, ds) := res in
              ret (j, e, decode (lsbf ma) (miso ma) bs :: ds)
          end
      end
  end.

(** spi.go [Read(data)]: only [len(data)] matters to the reader. *)
Definition Read (ma : Master) (len_data : nat) : R (Z * option error * list Z) :=
  read_loop ma 0 len_data.

(** spi.go [ReadN(n)]: its inner loop breaks on [m >= 0]; after the outer
    loop it returns [n, nil]. *)
Fixpoint readn_loop (n k : Z) (rem : nat) : R (Z * option error) :=
  match rem with
  | O => ret (n, None)
  | S rem' =>
      a <- await (fun m => 0 <=? m);;
      match a with
      | AClosed => r <- getR;; ret (k, rwerr r)
      | AErr e => ret (k, Some e)
      | AData m =>
          w <- read_window m;;
          match w with
          | inr e => ret (k, Some e)
          | inl _ => readn_loop n (k + 1) rem'
          end
      end
  end.

Definition ReadN (n : Z) : R (Z * option error) := readn_loop n 0 (Z.to_nat n).

(** A reader attached to the coordinator and driver a writer left behind:
    every directive sent is pending (none on the nil channel, where a
    receive blocks forever), and the synchronous driver returns [inp], one
    byte per byte written. *)
Definition reader_of (s : Master) (inp : list Z) : Reader :=
  match tst (tord s) with
  | Open => mkReader (tq (tord s)) false (werr s) inp false
  | Closed => mkReader (tq (tord s)) true (werr s) inp false
  | Nil => mkReader [] false (werr s) inp false
  end.

(** ** The reader of the later revision (flush marks and [discard]) *)

Module Rev2.

(** [discard(bits, ignfmark)]: the receive loop. *)
Fixpoint discard_q (ignfmark : bool) (q : list Z) : R (option error) :=
  fun r =>
    match q with
    | [] => if rclosed r then Ret (rwerr r) (set_rq [] r) else Block (set_rq [] r)
    | m :: q' =>
        let r := set_rq q' r in
        if m =? 16 then Ret None (set_rdr true r)
        else if m =? 0 then
          (if ignfmark then discard_q ignfmark q' r else Ret None r)
        else if 0 <? m then Panic "m>0 && m!=len(bits)" r
        else if 16 <? - m then Panic "slice bounds out of range" r
        else
          let '(_, rest, err) := read_full (Z.to_nat (- m)) (rin r) in
          let r := set_rin rest r in
          match err with
          | Some e => Ret (Some e) r
          | None => discard_q ignfmark q' r
          end
    end.

Definition discard (ignfmark : bool) : R (option error) :=
  fun r => if rdr r then Ret None r else discard_q ignfmark (rq r) r.

Definition readBits : R (list Z * option error) :=
  fun r =>
    let '(bs, rest, err) := read_full 16 (rin r) in
    let err := match err with
               | Some EOF => Some ErrUnexpectedEOF
               | Some e => Some e
               | None => if Nat.eqb (List.length bs) 16 then None
                         else Some ErrUnexpectedEOF
               end in
    Ret (bs, err) (set_rdr false (set_rin rest r)).

Fixpoint read_loop (ma : Master) (k : Z) (rem : nat) : R (Z * option error * list Z) :=
  match rem with
  | O => ret (k, None, [])
  | S n =>
      err <- discard true;;
      match err with
      | Some e => ret (k, Some e, [])
      | None =>
          x <- readBits;;
          let '(bs, err) := x in
          match err with
          | Some e => ret (k, Some e, [])
          | None =>
              res <- read_loop ma (k + 1) n;;
              let '(j, e, ds) := res in
              ret (j, e, decode (lsbf ma) (miso ma) bs :: ds)
          end
      end
  end.

Definition Read (ma : Master) (len_data : nat) : R (Z * option error * list Z) :=
  match len_data with
  | O => err <- discard false;; ret (0, err, [])
  | _ => read_loop ma 0 len_data
  end.

(** The writer-side [Begin] and [SetPrePost] of this revision. *)
Definition SetPrePost (p q : list Z) : M unit :=
  if 16 <? Z.of_nat (List.length p) then panic "len(pre)>16"
  else if 16 <? Z.of_nat (List.length q) then panic "len(post)>16"
  else modify (set_prepost p q).

(** [werror] of this revision also sets [ma.tord = nil] and releases the
    mutex. *)
Definition werror (e : error) : M unit :=
  modify (set_werr (Some e));;; close;;;
  modify (set_tord (mkCoord [] Nil (fun _ => true)));;; unlock.

Definition Begin : M (option error) :=
  lock;;;
  s <- get;;
  match werr s with
  | Some e => unlock;;; ret (Some e)
  | None =>
      modify (fun s => set_flen (- flen s) s);;;
      modify (set_fn 0);;;
      let n := Z.of_nat (List.length (pre s)) + (if cpha1 s then 1 else 0) in
      err <- tordFlush (- n);;
      err <- (if (0 <? Z.of_nat (List.length (pre s))) && is_none err
              then drv_write (pre s) else ret err);;
      err <- (if cpha1 s && is_none err
              then drv_write [Z.lor (base s) (cidle s)] else ret err);;
      match err with
      | Some e => werror e;;; ret (Some e)
      | None => ret None
      end
  end.


(** [tobits]: the encoding loop, [enc_loop] with the mask of [lsbf]. *)
Definition tobits (s : Master) (b : Z) : list Z := enc_loop s (first_mask s) 8 b.

(** [writeBits]: the frame/delay prologue, then the window; [toread] is
    [tordFlush], which is the same code.  The
    delay loop [for i := 0; i < ma.dlyn; i++ { if _, err := ...; err != nil
    { return err } }] is [idle_loop] started from [nil]. *)
Definition writeBits (bits : list Z) : M (option error) :=
  s <- get;;
  e <- (if 0 <? delay s then
          (if fn s =? flen s then
             let idle := Z.lor (base s) (cidle s) in
             let ibuf := [idle; idle] in
             err <- tordFlush (- delay s * Z.of_nat (List.length ibuf));;
             match err with
             | Some e => ret (Some e)
             | None =>
                 err <- idle_loop (Z.to_nat (delay s)) ibuf None;;
                 match err with
                 | Some e => ret (Some e)
                 | None => modify (set_fn 0);;; incr_fn;;; ret None
                 end
             end
           else incr_fn;;; ret None)
        else ret None);;
  match e with
  | Some e => ret (Some e)
  | None =>
      err <- tordFlush (Z.of_nat (List.length bits));;
      match err with
      | Some e => ret (Some e)
      | None => drv_write bits
      end
  end.

Fixpoint write_loop (k : Z) (data : list Z) : M (option (Z * error)) :=
  match data with
  | [] => ret None
  | b :: d =>
      s <- get;;
      err <- writeBits (tobits s b);;
      match err with
      | Some e => werror e;;; ret (Some (k, e))
      | None => write_loop (k + 1) d
      end
  end.

Definition Write (data : list Z) : M (Z * option error) :=
  s <- get;;
  match werr s with
  | Some e => unlock;;; ret (0, Some e)
  | None =>
      if flen s <? 0 then panic "Write outside Begin:End block"
      else
        r <- write_loop 0 data;;
        match r with
        | Some (k, e) => ret (k, Some e)
        | None => ret (Z.of_nat (List.length data), None)
        end
  end.

Definition Flush : M (option error) :=
  s <- get;;
  match werr s with
  | Some e => unlock;;; ret (Some e)
  | None =>
      err <- tordFlush 0;;
      err <- (if is_none err then drv_flush else ret err);;
      (match err with Some e => werror e | None => ret tt end);;;
      ret err
  end.

Definition End : M (option error) :=
  s <- get;;
  match werr s with
  | Some e => unlock;;; ret (Some e)
  | None =>
      modify (fun s => set_flen (- flen s) s);;;
      s <- get;;
      let n := Z.of_nat (List.length (post s)) + (if cpha1 s then 0 else 1) in
      err <- tordFlush (- n);;
      err <- (if negb (cpha1 s) && is_none err
              then drv_write [Z.lor (base s) (cidle s)] else ret err);;
      err <- (if (0 <? Z.of_nat (List.length (post s))) && is_none err
              then drv_write (post s) else ret err);;
      err <- (if is_none err then tordFlush 0 else ret err);;
      err <- (if is_none err then drv_flush else ret err);;
      match err with
      | Some e => werror e;;; ret (Some e)
      | None => unlock;;; ret None
      end
  end.


(** [WriteString]: [for k := 0; k < len(s); k++ { ma.tobits(&bits, s[k]); ... }] *)
Fixpoint ws_loop (str : string) (k : nat) (rem : nat) : M (option (Z * error)) :=
  match rem with
  | O => ret None
  | S r =>
      match String.get k str with
      | None => ret None
      | Some c =>
          s <- get;;
          err <- writeBits (tobits s (byte_of c));;
          match err with
          | Some e => werror e;;; ret (Some (Z.of_nat k, e))
          | None => ws_loop str (S k) r
          end
      end
  end.

Definition WriteString (str : string) : M (Z * option error) :=
  s <- get;;
  match werr s with
  | Some e => unlock;;; ret (0, Some e)
  | None =>
      if flen s <? 0 then panic "WriteString outside Begin:End block"
      else
        r <- ws_loop str 0 (String.length str);;
        match r with
        | Some (k, e) => ret (k, Some e)
        | None => ret (Z.of_nat (String.length str), None)
        end
  end.

(** [WriteN]: the window is encoded once, before the loop. *)
Fixpoint wn_loop (bits : list Z) (k : Z) (rem : nat) : M (option (Z * error)) :=
  match rem with
  | O => ret None
  | S r =>
      err <- writeBits bits;;
      match err with
      | Some e => werror e;;; ret (Some (k, e))
      | None => wn_loop bits (k + 1) r
      end
  end.

Definition WriteN (b : Z) (n : Z) : M (Z * option error) :=
  s <- get;;
  match werr s with
  | Some e => unlock;;; ret (0, Some e)
  | None =>
      if flen s <? 0 then panic "WriteN outside Begin:End block"
      else
        let bits := tobits s b in
        r <- wn_loop bits 0 (Z.to_nat n);;
        match r with
        | Some (k, e) => ret (k, Some e)
        | None => ret (n, None)
        end
  end.


(** [ReadN(n)]: the loop of [Read] without storing the bytes; [for m < n]
    runs no iteration for a negative [n]. *)
Fixpoint readn_loop (k : Z) (rem : nat) : R (Z * option error) :=
  match rem with
  | O => ret (k, None)
  | S n =>
      err <- discard true;;
      match err with
      | Some e => ret (k, Some e)
      | None =>
          x <- readBits;;
          let '(_, err) := x in
          match err with
          | Some e => ret (k, Some e)
          | None => readn_loop (k + 1) n
          end
      end
  end.

Definition ReadN (n : Z) : R (Z * option error) :=
  if n =? 0 then (err <- discard false;; ret (0, err))
  else readn_loop 0 (Z.to_nat n).

End Rev2.

(** ** debug.go: the [Debug] driver

    [Debug.Write] prints one text line per byte to its [io.Writer], here a
    [Driver] record used as a plain writer ([dout] is what it received,
    [dfail] its failure behaviour).  The 19-byte array [out] persists
    across the iterations of the loop; [upd out i v] is [out[i] = v] (every
    index the code uses is below 19). *)

Module Debug.

Definition upd (l : list Z) (i : nat) (v : Z) : list Z := firstn i l ++ v :: skipn (S i) l.

(** [w.Write(p)]. *)
Definition w_write (p : list Z) (w : Driver) : option error * Driver :=
  match dfail w with
  | Some O => (Some ErrDriver, w)
  | Some (S k) => (None, mkDriver (dout w ++ p) (Some k))
  | None => (None, mkDriver (dout w ++ p) None)
  end.

(** [for i := 1; i < 15; i += 2 { out[i] = '\t' }] *)
Fixpoint tabs (k i : nat) (out : list Z) : list Z :=
  match k with
  | O => out
  | S k' => if Nat.ltb i 15 then tabs k' (i + 2) (upd out i 9) else out
  end.

(** [for i := 0; i < 16; i += 2 { out[i] = '0' or '1'; mask >>= 1 }] *)
Fixpoint bits (k i : nat) (mask b : Z) (out : list Z) : list Z :=
  match k with
  | O => out
  | S k' =>
      if Nat.ltb i 16
      then bits k' (i + 2) (Z.shiftr mask 1) b
             (upd out i (if Z.land mask b =? 0 then 48 else 49))
      else out
  end.

(** The digits of [strconv.AppendUint(_, u, 16)]: most significant first,
    lower-case letters, no padding; a [uint64] has at most 16 of them. *)
Definition hex_char (d : Z) : Z := if d <? 10 then 48 + d else 87 + d.

Fixpoint hex_digits (k : nat) (u : Z) : list Z :=
  match k with
  | O => []
  | S k' => if u <? 16 then [hex_char u] else hex_digits k' (u / 16) ++ [hex_char (u mod 16)]
  end.

Definition AppendUint16 (dst : list Z) (u : Z) : list Z := dst ++ hex_digits 16 u.

(** [strconv.AppendUint(out[16:16:18], ...)]: the slice has length 0 and
    capacity 2, so the digits land in [out[16..]] when there are at most
    two of them, and in a new array otherwise. *)
Definition append_in_place (out : list Z) (off cap : nat) (ds : list Z) : list Z :=
  if Nat.leb (List.length ds) cap
  then firstn off out ++ ds ++ skipn (off + List.length ds) out
  else out.

(** The body of the loop, on the byte [b]. *)
Definition line_of (out : list Z) (b : Z) : list Z :=
  let out := bits 9 0 128 b out in
  let out := upd out 17 0 in
  let out := append_in_place out 16 2 (AppendUint16 [] b) in
  if nth 17 out 0 =? 0 then upd (upd out 17 (nth 16 out 0)) 16 48 else out.

(** [var out [19]byte] with its tabs and its newline. *)
Definition out0 : list Z := upd (upd (tabs 8 1 (repeat 0 19)) 15 9) 18 10.

Fixpoint write_loop (out : list Z) (n : Z) (data : list Z) (w : Driver)
  : option (Z * error) * Driver :=
  match data with
  | [] => (None, w)
  | b :: d =>
      let out := line_of out b in
      match w_write out w with
      | (Some e, w') => (Some (n, e), w')
      | (None, w') => write_loop out (n + 1) d w'
      end
  end.

Definition Write (data : list Z) (w : Driver) : (Z * option error) * Driver :=
  match write_loop out0 0 data w with
  | (Some (n, e), w') => ((n, Some e), w')
  | (None, w') => ((Z.of_nat (List.length data), None), w')
  end.

(** The line printed for the byte [b]. *)
Definition line (b : Z) : list Z := line_of out0 b.

End Debug.

(** ** The older [SPI] type (second half of spi.go)

    The [SPI] structure writes straight to an [io.Writer] (a [Driver] record
    used as a plain writer, as for [Debug]), without a coordinator or a
    base value.  Its [r] field is only stored by [Init] and read by no
    function of the file; it is left out.  A slave-select callback
    [ss func(bool) error] is an [option (bool -> option error)], [None]
    being a nil function. *)

Module OldSPI.

Record SPI := mkSPI {
  w : Driver; bif : Z; sclk : Z; mosi : Z; miso : Z;
  cidle : Z; cfirst : Z; cpha1 : bool; lsbf : bool; flen : Z; delay : Z }.

Definition SP := st SPI.

Definition set_w d s :=
  mkSPI d (bif s) (sclk s) (mosi s) (miso s) (cidle s) (cfirst s) (cpha1 s) (lsbf s) (flen s) (delay s).
Definition set_bif n s :=
  mkSPI (w s) n (sclk s) (mosi s) (miso s) (cidle s) (cfirst s) (cpha1 s) (lsbf s) (flen s) (delay s).
Definition set_cpha1 b s :=
  mkSPI (w s) (bif s) (sclk s) (mosi s) (miso s) (cidle s) (cfirst s) b (lsbf s) (flen s) (delay s).
Definition set_cidle c s :=
  mkSPI (w s) (bif s) (sclk s) (mosi s) (miso s) c (cfirst s) (cpha1 s) (lsbf s) (flen s) (delay s).
Definition set_cfirst c s :=
  mkSPI (w s) (bif s) (sclk s) (mosi s) (miso s) (cidle s) c (cpha1 s) (lsbf s) (flen s) (delay s).
Definition set_lsbf b s :=
  mkSPI (w s) (bif s) (sclk s) (mosi s) (miso s) (cidle s) (cfirst s) (cpha1 s) b (flen s) (delay s).
Definition set_flen n s :=
  mkSPI (w s) (bif s) (sclk s) (mosi s) (miso s) (cidle s) (cfirst s) (cpha1 s) (lsbf s) n (delay s).
Definition set_delay d s :=
  mkSPI (w s) (bif s) (sclk s) (mosi s) (miso s) (cidle s) (cfirst s) (cpha1 s) (lsbf s) (flen s) d.

Definition get : SP SPI := fun s => Ret s s.
Definition modify (f : SPI -> SPI) : SP unit := fun s => Ret tt (f s).

(** [spi.w.Write(p)]; only the error result is used. *)
Definition w_write (p : list Z) : SP (option error) :=
  fun s => let (e, d) := Debug.w_write p (w s) in
           match e with Some _ => Ret e s | None => Ret e (set_w d s) end.

(** [Init]: the assignments, guarded by the mask check. *)
Definition Init (w' : Driver) (sclk' mosi' miso' : Z) : SP unit :=
  if negb (Z.land sclk' mosi' =? 0) then panic "SPI.Init: scln&mosi != 0"
  else modify (fun s => mkSPI w' 0 sclk' mosi' miso'
                          (cidle s) (cfirst s) (cpha1 s) (lsbf s) (flen s) (delay s)).

(** [New]: [Init] on [new(SPI)], whose fields are all zero. *)
Definition New (w' : Driver) (sclk' mosi' miso' : Z) : outcome SPI unit :=
  Init w' sclk' mosi' miso' (mkSPI (mkDriver [] None) 0 0 0 0 0 0 false false 0 0).

Definition Configure (cfg : Config) : SP unit :=
  modify (set_cpha1 (negb (Z.land (Mode cfg) CPHA1 =? 0)));;;
  s <- get;;
  (if Z.land (Mode cfg) CPOL1 =? 0 then
     modify (set_cidle 0);;;
     modify (set_cfirst (if cpha1 s then sclk s else 0))
   else
     modify (set_cidle (sclk s));;;
     modify (set_cfirst (if cpha1 s then 0 else sclk s)));;;
  modify (set_lsbf (negb (Z.land (Mode cfg) LSBF =? 0)));;;
  if Delay cfg <? 0 then panic "SPI.Configure: delay < 0"
  else if negb (Delay cfg =? 0) && (FrameLen cfg <=? 0)
  then panic "SPI.Configure: delay != 0 && flen <= 0"
  else modify (set_flen (FrameLen cfg));;; modify (set_delay (Delay cfg)).

(** [if ss != nil { return ss(true) }; return nil] *)
Definition call_ss (ss : option (bool -> option error)) : SP (option error) :=
  match ss with Some f => ret (f true) | None => ret None end.

Definition Begin (ss : option (bool -> option error)) : SP (option error) :=
  modify (set_bif 0);;;
  s <- get;;
  err <- (if cpha1 s then w_write [cidle s] else ret None);;
  match err with
  | Some e => ret (Some e)
  | None => call_ss ss
  end.

Definition End (ss : option (bool -> option error)) : SP (option error) :=
  modify (set_bif 0);;;
  s <- get;;
  err <- (if negb (cpha1 s) then w_write [cidle s] else ret None);;
  match err with
  | Some e => ret (Some e)
  | None => call_ss ss
  end.

Definition NewFrame : SP unit := modify (set_bif 0).

(** [for i := 0; i < spi.delay; i++ { if _, err := spi.w.Write(..); err != nil { return n, err } }] *)
Fixpoint idle_loop (k : nat) (p : list Z) : SP (option error) :=
  match k with
  | O => ret None
  | S k' =>
      err <- w_write p;;
      match err with
      | Some e => ret (Some e)
      | None => idle_loop k' p
      end
  end.

(** The frame/delay prologue of the loop of [Write]; [Some e] is its early
    return. *)
Definition frame : SP (option error) :=
  s <- get;;
  if negb (delay s =? 0) then
    (if bif s =? flen s then
       err <- idle_loop (Z.to_nat (delay s)) [cidle s; cidle s];;
       match err with
       | Some e => ret (Some e)
       | None => modify (set_bif 0);;; modify (fun s => set_bif (bif s + 1) s);;; ret None
       end
     else modify (fun s => set_bif (bif s + 1) s);;; ret None)
  else ret None.

(** [for i := 0; i < 16; i += 2 { ... }] filling [obuf]. *)
Fixpoint obuf_loop (s : SPI) (mask : Z) (k : nat) (u : Z) : list Z :=
  match k with
  | O => []
  | S k' =>
      let out := if negb (Z.land mask u =? 0) then Z.lor (cfirst s) (mosi s) else cfirst s in
      out :: Z.lxor out (sclk s)
          :: obuf_loop s mask k' (if lsbf s then Z.shiftr u 1 else Z.shiftl u 1)
  end.

Fixpoint write_loop (mask : Z) (n : Z) (data : list Z) : SP (option (Z * error)) :=
  match data with
  | [] => ret None
  | b :: d =>
      e <- frame;;
      match e with
      | Some e => ret (Some (n, e))
      | None =>
          s <- get;;
          err <- w_write (obuf_loop s mask 8 b);;
          match err with
          | Some e => ret (Some (n, e))
          | None => write_loop mask (n + 1) d
          end
      end
  end.

Definition Write (data : list Z) : SP (Z * option error) :=
  s <- get;;
  r <- write_loop (if lsbf s then 1 else 128) 0 data;;
  match r with
  | Some (n, e) => ret (n, Some e)
  | None => ret (Z.of_nat (List.length data), None)
  end.

End OldSPI.

(** The [Master] that plays the part of an [SPI] state inside a Begin:End
    block: same writer, masks and configuration, [base] 0, [fn] the
    frame counter [bif], an open coordinator. *)
Definition as_master (s : OldSPI.SPI) : Master :=
  mkMaster (OldSPI.w s) new_chan None true (OldSPI.bif s) [] []
    (OldSPI.sclk s) (OldSPI.mosi s) (OldSPI.miso s) 0
    (OldSPI.cidle s) (OldSPI.cfirst s) (OldSPI.cpha1 s) (OldSPI.lsbf s)
    (OldSPI.flen s) (OldSPI.delay s).

(** ** Concrete scenarios of spi_test.go

    The test master: [NewMaster(drv, 0x01, 0x10, 0)] on a buffer driver
    that never fails, with [SetPrePost([]byte{0x80}, []byte{0x80})]. *)

Definition t_ma : Master := final (NewMaster (mkDriver [] None) 1 16 0).

Definition t_txn (cfg : Config) (data : list Z) : M unit :=
  SetPrePost [128] [128];;; Configure cfg;;; Begin;;; Write data;;; End;;; ret tt.

Definition t_run (cfg : Config) (data : list Z) : list Z :=
  dout (drv (final (t_txn cfg data t_ma))).

(** The master of spi_test.go, configured but before its transaction. *)
Definition t_cfg (cfg : Config) : Master :=
  final ((SetPrePost [128] [128];;; Configure cfg) t_ma).

(** ** Specification helpers *)

(** Bit [i] of [b] in the configured order. *)
Definition bit_in_order (ls : bool) (b : Z) (i : nat) : bool :=
  if ls then Z.testbit b (Z.of_nat i) else Z.testbit b (7 - Z.of_nat i).

(** The two samples of one bit cell. *)
Definition cellw (s : Master) (bit : bool) : Z :=
  if bit then Z.lor (Z.lor (base s) (cfirst s)) (mosi s) else Z.lor (base s) (cfirst s).

Definition cell (s : Master) (bit : bool) : list Z := [cellw s bit; Z.lxor (cellw s bit) (sclk s)].

(** The bits the encoder looks at, in the order it looks at them. *)
Fixpoint msb_bits (k : nat) (u : Z) : list bool :=
  match k with O => [] | S k' => Z.testbit u 7 :: msb_bits k' (Z.shiftl u 1) end.

Fixpoint lsb_bits (k : nat) (u : Z) : list bool :=
  match k with O => [] | S k' => Z.testbit u 0 :: lsb_bits k' (Z.shiftr u 1) end.

Definition order_bits (ls : bool) (b : Z) : list bool :=
  if ls then lsb_bits 8 b else msb_bits 8 b.

(** The decoder loop run on the sampled bits. *)
Fixpoint dec_bits (ls : bool) (bs : list bool) (u : Z) : Z :=
  match bs with
  | [] => u
  | x :: r =>
      let u := if ls then Z.shiftr u 1 else Z.shiftl u 1 in
      dec_bits ls r (if x then Z.lor u (if ls then 128 else 1) else u)
  end.

(** The frame/delay schedule of a transaction, by data-byte index: the
    value of [fn] before the data byte of index [i] (counted from Begin), the
    idle block emitted before it and the directive announcing that block. *)
Definition fn_at (F i : Z) : Z := if i =? 0 then 0 else (i - 1) mod F + 1.

Definition idle_of (s : Master) : Z := Z.lor (base s) (cidle s).

Definition delay_here (s : Master) (F i : Z) : bool :=
  (0 <? delay s) && (0 <? i) && (i mod F =? 0).

Definition delay_block (s : Master) (F i : Z) : list Z :=
  if delay_here s F i then repeat (idle_of s) (Z.to_nat (2 * delay s)) else [].

Definition delay_dir (s : Master) (F i : Z) : list Z :=
  if delay_here s F i then [- (2 * delay s)] else [].

Fixpoint frames_out (s : Master) (F i : Z) (data : list Z) : list Z :=
  match data with
  | [] => []
  | b :: d => delay_block s F i ++ encode s b ++ frames_out s F (i + 1) d
  end.

Fixpoint frames_dirs (s : Master) (F i : Z) (data : list Z) : list Z :=
  match data with
  | [] => []
  | b :: d => delay_dir s F i ++ [16] ++ frames_dirs s F (i + 1) d
  end.

(** The fields no write operation changes. *)
Definition static (s : Master) :=
  (base s, cfirst s, cidle s, sclk s, mosi s, miso s, lsbf s, cpha1 s,
   flen s, delay s, pre s, post s, werr s, wmtx s).

(** A writer whose driver never fails and whose coordinator is open. *)
Definition good (s : Master) : Prop :=
  dfail (drv s) = None /\ tst (tord s) = Open /\ 0 <= delay s <= 8.

(** The fields the encoder and the delay schedule read. *)
Definition wire (s : Master) :=
  (base s, cfirst s, cidle s, sclk s, mosi s, lsbf s, delay s).

(** [s] after handing [out] to the driver and sending [ds] on the
    coordinator, with [fn] set to [f]. *)
Definition emit (s : Master) (out ds : list Z) (f : Z) : Master :=
  set_fn f (set_tord (mkCoord (tq (tord s) ++ ds) Open (tfull (tord s)))
                     (set_drv (mkDriver (dout (drv s) ++ out) None) s)).

(** A transaction as spi_test.go runs it: Begin, one Write, End. *)
Definition txn (data : list Z) : M (option error) := Begin;;; Write data;;; End.

(** The two streams the writer produces: bytes to the driver, directives to
    the reader. *)
Definition streams {A} (o : outcome Master A) : list Z * list Z :=
  (dout (drv (final o)), tq (tord (final o))).

(** The number of frame boundaries strictly inside the first [j] data bytes:
    the indices [k] in [1, j-1] with [k mod F = 0]. *)
Definition gcount (F j : Z) : Z := Z.max 0 (j - 1) / F.

(** A client writing [data] with one [WriteByte] call per byte, stopping at
    the first error. *)
Fixpoint WriteBytes (data : list Z) : M (option error) :=
  match data with
  | [] => ret None
  | b :: d =>
      err <- WriteByte b;;
      match err with
      | Some e => ret (Some e)
      | None => WriteBytes d
      end
  end.

(** The master of spi_test.go inside its transaction, after [Begin]. *)
Definition t_open (cfg : Config) : Master := final (Begin (t_cfg cfg)).

Definition omap {S A B} (f : A -> B) (o : outcome S A) : outcome S B :=
  match o with
  | Ret a s => Ret (f a) s
  | Panic m s => Panic m s
  | Block s => Block s
  end.

(** [m] leaves the encoder's fields and the frame length unchanged. *)
Definition keeps {A} (m : M A) : Prop :=
  forall s a s', m s = Ret a s' -> wire s' = wire s /\ flen s' = flen s.

(** The value an outcome returns, if it returns. *)
Definition ret_of {S A} (o : outcome S A) : option A :=
  match o with Ret a _ => Some a | _ => None end.

(** The test master on a driver whose [k]-th [Write] fails. *)
Definition t_fail (k : nat) : Master :=
  final ((SetPrePost [128] [128];;; Configure (mkConfig 0 1 0))
           (final (NewMaster (mkDriver [] (Some k)) 1 16 0))).

(** A fresh master, mode 0 (CPHA0) and no pre/post bytes, after one
    transaction writing [data]. *)
Definition t_plain (data : list Z) : Master :=
  final ((Configure (mkConfig 0 1 0);;; Begin;;; Write data;;; End) t_ma).

(** A master of the later revision configured in mode [CPHA1] with 16 pre
    bytes, the most its [SetPrePost] accepts, after [Begin]. *)
Definition t_rev2_pre16 : outcome Master (option error) :=
  (Rev2.SetPrePost (repeat 128 16) [128];;; Configure (mkConfig CPHA1 1 0);;; Rev2.Begin)
    t_ma.

(** The overhead bytes named by the discard directives [ds]. *)
Definition overhead (ds : list Z) : nat :=
  fold_right (fun m acc => (Z.to_nat (- m) + acc)%nat) 0%nat ds.

(** The master of spi_test.go with MOSI looped back to MISO
    ([NewMaster(drv, 0x01, 0x10, 0x10)]), configured. *)
Definition t_loop (cfg : Config) : Master :=
  final ((SetPrePost [128] [128];;; Configure cfg)
           (final (NewMaster (mkDriver [] None) 1 16 16))).

(** The number of bytes a sequence of directives accounts for: [m] bytes
    for a data directive [m > 0], [-m] overhead bytes for [m <= 0]. *)
Definition dir_bytes (ds : list Z) : Z := fold_right (fun m acc => Z.abs m + acc) 0 ds.

(** How an [SPI] state and a [Master] state correspond: same writer,
    masks, configuration and frame counter, [base] 0, an open
    coordinator. *)
Definition sim (s : OldSPI.SPI) (m : Master) : Prop :=
  drv m = OldSPI.w s /\ fn m = OldSPI.bif s /\ base m = 0 /\
  sclk m = OldSPI.sclk s /\ mosi m = OldSPI.mosi s /\ cidle m = OldSPI.cidle s /\
  cfirst m = OldSPI.cfirst s /\ lsbf m = OldSPI.lsbf s /\
  flen m = OldSPI.flen s /\ delay m = OldSPI.delay s /\ tst (tord m) = Open /\
  tfull (tord m) = (fun _ => false).

(** The older SPI in mode 5 (LSB first, CPHA1), frames of 2 bytes, delay 1,
    on a writer that fails at its third write, and on one that never fails. *)
Definition t_old : OldSPI.SPI :=
  final (OldSPI.Configure (mkConfig 5 2 1) (final (OldSPI.New (mkDriver [] (Some 2%nat)) 1 2 4))).

Definition t_old_ok : OldSPI.SPI := OldSPI.set_w (mkDriver [] None) t_old.

(** A master of the later revision inside a transaction whose driver
    accepted the pre byte and fails from now on. *)
Definition t_rev2_fail : Master := final (Rev2.Begin (t_fail 1)).

(** A master of the later revision inside a transaction, with some data
    written, on a driver that never fails. *)
Definition t_rev2_open : Master :=
  final ((Rev2.Begin;;; Rev2.Write [85; 170]) (t_cfg (mkConfig 0 1 0))).

(** [tordFlush] returns the error of the driver's [Flush] instead of
    sending: the channel is full and the driver has failed. *)
Definition flush_fails (s : Master) : bool :=
  chan_full (tord s) && match dfail (drv s) with Some O => true | _ => false end.

(** A reader that has stopped receiving: the channel is full at every send. *)
Definition stalled (s : Master) : Master :=
  set_tord (mkCoord (tq (tord s)) (tst (tord s)) (fun _ => true)) s.

(** * Properties *)

(** Hypotheses on a concrete master are decided by evaluation. *)
Ltac concrete :=
  vm_compute; repeat split; first [reflexivity | intro; discriminate].

Example t1 : t_run (mkConfig 0 1 0) [85;170] = [128; 0;1;16;17;0;1;16;17;0;1;16;17;0;1;16;17;
  16;17;0;1;16;17;0;1;16;17;0;1;16;17;0;1; 0; 128].
Proof. reflexivity. Qed.

(** ** Encoding and decoding *)

Lemma land_pow2 (n u : Z) : 0 <= n ->
  Z.land (2 ^ n) u = if Z.testbit u n then 2 ^ n else 0.
Proof.
  intros Hn. apply Z.bits_inj'. intros m Hm.
  rewrite Z.land_spec, Z.pow2_bits_eqb by lia.
  destruct (Z.eqb_spec n m) as [->|Hne].
  - destruct (Z.testbit u m); simpl;
      [rewrite Z.pow2_bits_eqb, Z.eqb_refl by lia | rewrite Z.bits_0]; reflexivity.
  - destruct (Z.testbit u n); simpl;
      [rewrite Z.pow2_bits_eqb by lia; symmetry; apply Z.eqb_neq; lia
      | rewrite Z.bits_0; reflexivity].
Qed.

Lemma mask_test (n u : Z) : 0 <= n ->
  negb (Z.land (2 ^ n) u =? 0) = Z.testbit u n.
Proof.
  intros Hn. rewrite land_pow2 by lia.
  destruct (Z.testbit u n); [|reflexivity].
  simpl. assert (0 < 2 ^ n) by (apply Z.pow_pos_nonneg; lia).
  destruct (Z.eqb_spec (2 ^ n) 0); [lia | reflexivity].
Qed.

Lemma enc_loop_msb (s : Master) (k : nat) (u : Z) : lsbf s = false ->
  enc_loop s 128 k u = flat_map (cell s) (msb_bits k u).
Proof.
  intros Hl. revert u. induction k as [|k IH]; intros u; [reflexivity|].
  cbn [enc_loop msb_bits flat_map]. rewrite Hl, IH. change 128 with (2 ^ 7). rewrite mask_test by lia.
  unfold cell, cellw. destruct (Z.testbit u 7); reflexivity.
Qed.

Lemma enc_loop_lsb (s : Master) (k : nat) (u : Z) : lsbf s = true ->
  enc_loop s 1 k u = flat_map (cell s) (lsb_bits k u).
Proof.
  intros Hl. revert u. induction k as [|k IH]; intros u; [reflexivity|].
  cbn [enc_loop lsb_bits flat_map]. rewrite Hl, IH. change 1 with (2 ^ 0). rewrite mask_test by lia.
  unfold cell, cellw. destruct (Z.testbit u 0); reflexivity.
Qed.

Lemma encode_cells (s : Master) (b : Z) :
  encode s b = flat_map (cell s) (order_bits (lsbf s) b).
Proof.
  unfold encode, first_mask, order_bits.
  destruct (lsbf s) eqn:Hl; [apply enc_loop_lsb | apply enc_loop_msb]; exact Hl.
Qed.

Lemma msb_bits_length k u : List.length (msb_bits k u) = k.
Proof. revert u; induction k; intros; simpl; auto. Qed.

Lemma lsb_bits_length k u : List.length (lsb_bits k u) = k.
Proof. revert u; induction k; intros; simpl; auto. Qed.

Lemma order_bits_length ls b : List.length (order_bits ls b) = 8%nat.
Proof. unfold order_bits; destruct ls; [apply lsb_bits_length | apply msb_bits_length]. Qed.

Lemma nth_msb_bits k u i : (i < k)%nat ->
  nth i (msb_bits k u) false = Z.testbit u (7 - Z.of_nat i).
Proof.
  revert u i. induction k as [|k IH]; intros u i Hi; [lia|].
  destruct i as [|i]; cbn [msb_bits nth]; [f_equal; lia|].
  rewrite IH by lia. rewrite Nat2Z.inj_succ.
  destruct (Z.le_gt_cases 0 (7 - Z.of_nat i)) as [Hp|Hn].
  - rewrite Z.shiftl_spec by lia. f_equal; lia.
  - rewrite !Z.testbit_neg_r by lia. reflexivity.
Qed.

Lemma nth_lsb_bits k u i : (i < k)%nat ->
  nth i (lsb_bits k u) false = Z.testbit u (Z.of_nat i).
Proof.
  revert u i. induction k as [|k IH]; intros u i Hi; [lia|].
  destruct i as [|i]; cbn [lsb_bits nth]; [reflexivity|].
  rewrite IH by lia. rewrite Z.shiftr_spec by lia. f_equal; lia.
Qed.

Lemma nth_order_bits ls b i : (i < 8)%nat ->
  nth i (order_bits ls b) false = bit_in_order ls b i.
Proof.
  intros Hi. unfold order_bits, bit_in_order.
  destruct ls; [apply nth_lsb_bits | apply nth_msb_bits]; exact Hi.
Qed.

Lemma nth_cells_even (s : Master) (bs : list bool) (i : nat) : (i < List.length bs)%nat ->
  nth (2 * i) (flat_map (cell s) bs) 0 = cellw s (nth i bs false).
Proof.
  revert i. induction bs as [|x bs IH]; intros i Hi; simpl in Hi; [lia|].
  destruct i as [|i]; [reflexivity|].
  replace (2 * S i)%nat with (S (S (2 * i))) by lia. simpl. apply IH. lia.
Qed.

Lemma nth_cells_odd (s : Master) (bs : list bool) (i : nat) : (i < List.length bs)%nat ->
  nth (S (2 * i)) (flat_map (cell s) bs) 0 = Z.lxor (cellw s (nth i bs false)) (sclk s).
Proof.
  revert i. induction bs as [|x bs IH]; intros i Hi; simpl in Hi; [lia|].
  destruct i as [|i]; [reflexivity|].
  replace (S (2 * S i))%nat with (S (S (S (2 * i)))) by lia. simpl. apply IH. lia.
Qed.

Lemma cells_length (s : Master) (bs : list bool) :
  List.length (flat_map (cell s) bs) = (2 * List.length bs)%nat.
Proof. induction bs; simpl; [reflexivity|]. rewrite IHbs. lia. Qed.

(** What [Configure] derives from the mode. *)
Lemma Configure_ok (cfg : Config) (s s' : Master) :
  Configure cfg s = Ret tt s' ->
  (cfirst s' = 0 \/ cfirst s' = sclk s') /\ (cidle s' = 0 \/ cidle s' = sclk s') /\
  sclk s' = sclk s /\ mosi s' = mosi s /\ miso s' = miso s /\ base s' = base s /\
  flen s' = - FrameLen cfg /\ 0 < FrameLen cfg /\ delay s' = Delay cfg /\
  0 <= Delay cfg <= 8 /\ drv s' = drv s /\ tord s' = tord s /\ werr s' = werr s /\
  wmtx s' = wmtx s /\ fn s' = fn s /\ pre s' = pre s /\ post s' = post s /\
  lsbf s' = negb (Z.land (Mode cfg) LSBF =? 0) /\
  cpha1 s' = negb (Z.land (Mode cfg) CPHA1 =? 0).
Proof.
  unfold Configure. intros H.
  destruct (Z.land (Mode cfg) CPOL1 =? 0);
  destruct (negb (Z.land (Mode cfg) CPHA1 =? 0)) eqn:Hc;
  destruct ((Delay cfg <? 0) || (8 <? Delay cfg)) eqn:Hd; try discriminate;
  destruct (FrameLen cfg <=? 0) eqn:Hf; try discriminate;
  injection H as <-; simpl;
  apply orb_false_iff in Hd; destruct Hd as [Hd1 Hd2];
  apply Z.ltb_ge in Hd1; apply Z.ltb_ge in Hd2; apply Z.leb_gt in Hf;
  repeat split; auto; lia.
Qed.

(** Turn an equation between integers into one about bit [n]. *)
Ltac bit_at n H :=
  let H' := fresh H "_" n in
  pose proof (f_equal (fun x => Z.testbit x n) H) as H'; cbv beta in H';
  rewrite ?Z.land_spec, ?Z.lor_spec, ?Z.bits_0 in H'.

Lemma cellw_outside (s : Master) (bit : bool) (p : Z) :
  (cfirst s = 0 \/ cfirst s = sclk s) ->
  Z.testbit (sclk s) p = false -> Z.testbit (mosi s) p = false ->
  Z.testbit (cellw s bit) p = Z.testbit (base s) p /\
  Z.testbit (Z.lxor (cellw s bit) (sclk s)) p = Z.testbit (base s) p.
Proof.
  intros Hcf Hs Hm. unfold cellw.
  assert (Hc : Z.testbit (cfirst s) p = false)
    by (destruct Hcf as [-> | ->]; [apply Z.bits_0 | exact Hs]).
  destruct bit; rewrite ?Z.lxor_spec, ?Z.lor_spec, Hc, Hs, ?Hm;
    destruct (Z.testbit (base s) p); auto.
Qed.

Lemma cellw_mosi (s : Master) (bit : bool) :
  (cfirst s = 0 \/ cfirst s = sclk s) ->
  Z.land (sclk s) (mosi s) = 0 -> Z.land (base s) (mosi s) = 0 ->
  Z.land (cellw s bit) (mosi s) = if bit then mosi s else 0.
Proof.
  intros Hcf Hsm Hbm. apply Z.bits_inj'. intros n _.
  bit_at n Hsm. bit_at n Hbm. unfold cellw.
  assert (Hc : Z.testbit (cfirst s) n = false \/ cfirst s = sclk s)
    by (destruct Hcf as [-> | ->]; [left; apply Z.bits_0 | right; reflexivity]).
  destruct bit; rewrite ?Z.land_spec, ?Z.lor_spec, ?Z.bits_0;
    destruct Hc as [Hc | Hc]; try rewrite Hc;
    destruct (Z.testbit (base s) n), (Z.testbit (sclk s) n), (Z.testbit (mosi s) n);
    simpl in *; auto; discriminate.
Qed.

Lemma cellw_miso (s : Master) (bit : bool) :
  (cfirst s = 0 \/ cfirst s = sclk s) ->
  Z.land (miso s) (Z.lor (base s) (sclk s)) = 0 ->
  Z.land (Z.lxor (cellw s bit) (sclk s)) (miso s) =
  if bit then Z.land (mosi s) (miso s) else 0.
Proof.
  intros Hcf Hm. apply Z.bits_inj'. intros n _.
  bit_at n Hm. unfold cellw.
  assert (Hc : Z.testbit (cfirst s) n = false \/ cfirst s = sclk s)
    by (destruct Hcf as [-> | ->]; [left; apply Z.bits_0 | right; reflexivity]).
  destruct bit; rewrite ?Z.land_spec, ?Z.lxor_spec, ?Z.lor_spec, ?Z.bits_0;
    destruct Hc as [Hc | Hc]; try rewrite Hc;
    destruct (Z.testbit (base s) n), (Z.testbit (sclk s) n), (Z.testbit (mosi s) n),
      (Z.testbit (miso s) n); simpl in *; auto; discriminate.
Qed.

Lemma dec_cells (s : Master) (ls : bool) (bs : list bool) (u : Z) :
  (forall bit, negb (Z.land (Z.lxor (cellw s bit) (sclk s)) (miso s) =? 0) = bit) ->
  dec_loop ls (miso s) (flat_map (cell s) bs) u = dec_bits ls bs u.
Proof.
  intros Hb. revert u. induction bs as [|x bs IH]; intros u; [reflexivity|].
  cbn [flat_map cell app dec_loop dec_bits]. rewrite Hb. apply IH.
Qed.

Lemma dec_order_bits (ls : bool) (b : Z) : 0 <= b < 256 ->
  Z.land (dec_bits ls (order_bits ls b) 0) 255 = b.
Proof.
  intros Hb.
  assert (Hc : forallb (fun n => Z.land (dec_bits ls (order_bits ls (Z.of_nat n)) 0) 255
                                 =? Z.of_nat n) (seq 0 256) = true)
    by (destruct ls; vm_compute; reflexivity).
  rewrite forallb_forall in Hc. specialize (Hc (Z.to_nat b)).
  rewrite in_seq, Z2Nat.id in Hc by lia. apply Z.eqb_eq, Hc. lia.
Qed.

(** C1 (amended).  Decoding samples the MISO line, so encoding [b] and
    decoding the same window returns [b], in every mode, when the MISO mask
    shares a bit with MOSI and has no bit in common with [base] or [sclk]
    (for instance MOSI looped back to MISO, with [base] clear on it). *)
Theorem roundtrip_loopback (cfg : Config) (s s' : Master) (b : Z) :
  Configure cfg s = Ret tt s' -> 0 <= b < 256 ->
  Z.land (miso s) (mosi s) <> 0 ->
  Z.land (miso s) (Z.lor (base s) (sclk s)) = 0 ->
  decode (lsbf s') (miso s') (encode s' b) = b.
Proof.
  intros Hc Hb Hmm Hmb.
  destruct (Configure_ok cfg s s' Hc) as (Hcf & _ & Hsc & Hmo & Hmi & Hba & _).
  unfold decode. rewrite encode_cells, dec_cells; [apply dec_order_bits; exact Hb|].
  intros bit. rewrite cellw_miso; [| exact Hcf | rewrite Hmi, Hba, Hsc; exact Hmb].
  rewrite Hmo, Hmi. destruct bit; [|reflexivity].
  rewrite Z.land_comm. destruct (Z.eqb_spec (Z.land (miso s) (mosi s)) 0); [contradiction | reflexivity].
Qed.

Lemma roundtrip_loopback_witness :
  let s := final (NewMaster (mkDriver [] None) 1 16 16) in
  let s' := final (Configure (mkConfig 3 1 0) s) in
  Configure (mkConfig 3 1 0) s = Ret tt s' /\
  decode (lsbf s') (miso s') (encode s' 165) = 165.
Proof.
  split; [reflexivity|].
  apply (roundtrip_loopback (mkConfig 3 1 0) (final (NewMaster (mkDriver [] None) 1 16 16))
           _ 165); [reflexivity | lia | vm_compute; discriminate | reflexivity].
Defined.

(** C1 counterexample: the test master of spi_test.go ([miso = 0]), mode
    M00: the window of 0x55 decodes to 0. *)
Lemma roundtrip_counterexample :
  decode (lsbf (final (Configure (mkConfig 0 1 0) t_ma))) (miso (final (Configure (mkConfig 0 1 0) t_ma)))
    (encode (final (Configure (mkConfig 0 1 0) t_ma)) 85) = 0 /\ 0 <> 85.
Proof. split; [reflexivity | discriminate]. Qed.

Lemma encode_length (s : Master) (b : Z) : List.length (encode s b) = 16%nat.
Proof. rewrite encode_cells, cells_length, order_bits_length. reflexivity. Qed.

(** C2 (amended).  For every configuration and byte [b], the window of [b]
    has 16 samples, [buf[2i+1] = buf[2i] ^ sclk] and every bit outside the
    [sclk] and [mosi] masks equals the bit of [base], with no further
    assumption; and, when [base] has no
    bit in common with [mosi] and [mosi] is not 0 (with [sclk & mosi = 0] as
    NewMaster enforces), [buf[2i] & mosi != 0] exactly when bit [i] of [b]
    in the configured order is set. *)
Theorem encode_window (cfg : Config) (s s' : Master) (b : Z) :
  Configure cfg s = Ret tt s' ->
  List.length (encode s' b) = 16%nat /\
  (forall i, (i < 8)%nat ->
     nth (S (2 * i)) (encode s' b) 0 = Z.lxor (nth (2 * i) (encode s' b) 0) (sclk s')) /\
  (forall j p, (j < 16)%nat ->
     Z.testbit (sclk s') p = false -> Z.testbit (mosi s') p = false ->
     Z.testbit (nth j (encode s' b) 0) p = Z.testbit (base s') p) /\
  (Z.land (sclk s) (mosi s) = 0 -> Z.land (base s) (mosi s) = 0 -> mosi s <> 0 ->
   forall i, (i < 8)%nat ->
     (Z.land (nth (2 * i) (encode s' b) 0) (mosi s') <> 0 <->
      bit_in_order (lsbf s') b i = true)).
Proof.
  intros Hc.
  destruct (Configure_ok cfg s s' Hc) as (Hcf & _ & Hsc & Hmo & _ & Hba & _).
  rewrite encode_cells.
  pose proof (order_bits_length (lsbf s') b) as Hlen.
  split; [rewrite cells_length, Hlen; reflexivity|].
  split; [intros i Hi; rewrite nth_cells_odd, nth_cells_even by lia; reflexivity|].
  split.
  - intros j p Hj Hs Hmp.
    destruct (Nat.Even_or_Odd j) as [[i ->] | [i ->]].
    + rewrite nth_cells_even by lia. apply cellw_outside; assumption.
    + replace (2 * i + 1)%nat with (S (2 * i)) by lia.
      rewrite nth_cells_odd by lia. apply cellw_outside; assumption.
  - intros Hsm Hbm Hm0.
    rewrite <- Hsc, <- Hmo in Hsm. rewrite <- Hba, <- Hmo in Hbm. rewrite <- Hmo in Hm0.
    intros i Hi. rewrite nth_cells_even by lia. rewrite cellw_mosi by assumption.
    rewrite nth_order_bits by lia.
    destruct (bit_in_order (lsbf s') b i); split; intros H; auto; congruence.
Qed.

Lemma encode_window_witness :
  let s := final (NewMaster (mkDriver [] None) 1 16 0) in
  let s' := final (Configure (mkConfig 1 1 0) s) in
  Configure (mkConfig 1 1 0) s = Ret tt s' /\
  List.length (encode s' 2) = 16%nat /\
  (Z.land (nth 2 (encode s' 2) 0) (mosi s') <> 0 <-> bit_in_order (lsbf s') 2 1 = true).
Proof.
  split; [reflexivity|].
  pose proof (encode_window (mkConfig 1 1 0) (final (NewMaster (mkDriver [] None) 1 16 0))
    (final (Configure (mkConfig 1 1 0) (final (NewMaster (mkDriver [] None) 1 16 0)))) 2
    eq_refl) as W.
  split; [exact (proj1 W)|].
  exact (proj2 (proj2 (proj2 W)) eq_refl eq_refl ltac:(discriminate) 1%nat ltac:(lia)).
Defined.

(** C2 counterexample: with [SetBase(0x10)] on the test master ([mosi =
    0x10]), the first sample of the window of 0 has the MOSI bit set
    although no bit of 0 is set. *)
Lemma encode_window_counterexample :
  let s' := final ((SetBase 16;;; Configure (mkConfig 0 1 0)) t_ma) in
  ~ (Z.land (nth 0 (encode s' 0) 0) (mosi s') <> 0 <-> bit_in_order (lsbf s') 0 0 = true).
Proof.
  vm_compute. intros [H _]. specialize (H ltac:(discriminate)). discriminate.
Qed.

(** ** Framing and inter-frame delays *)

Lemma bind_Ret {S A B} (m : st S A) (k : A -> st S B) (s : S) (a : A) (s' : S) :
  m s = Ret a s' -> bind m k s = k a s'.
Proof. unfold bind. intros ->. reflexivity. Qed.

Lemma fn_at_step (F i : Z) : 0 < F -> 0 <= i ->
  (fn_at F i =? F) = (0 <? i) && (i mod F =? 0) /\
  (if fn_at F i =? F then 1 else fn_at F i + 1) = fn_at F (i + 1).
Proof.
  intros HF Hi. unfold fn_at.
  destruct (Z.eqb_spec i 0) as [->|Hi0].
  - destruct (Z.eqb_spec 0 F); [lia|]. simpl.
    rewrite ?Zmod_0_l. split; reflexivity.
  - destruct (Z.eqb_spec (i + 1) 0); [lia|].
    replace (i + 1 - 1) with i by lia.
    pose proof (Z.mod_pos_bound (i - 1) F HF) as Hr.
    assert (Hm : i mod F = ((i - 1) mod F + 1) mod F).
    { rewrite Z.add_mod_idemp_l by lia. f_equal. lia. }
    assert (Hpos : (0 <? i) = true) by (apply Z.ltb_lt; lia). rewrite Hpos.
    destruct (Z.eqb_spec ((i - 1) mod F + 1) F) as [E|E].
    + rewrite E, Z.mod_same in Hm by lia. rewrite Hm. split; reflexivity.
    + rewrite (Z.mod_small ((i - 1) mod F + 1) F) in Hm by lia. rewrite Hm.
      destruct (Z.eqb_spec ((i - 1) mod F + 1) 0); [lia|]. split; reflexivity.
Qed.

Lemma tordFlush_ok (n : Z) (s : Master) :
  -128 <= n <= 127 -> tst (tord s) = Open ->
  (chan_full (tord s) = false \/ dfail (drv s) <> Some O) ->
  tordFlush n s = Ret None (set_tord (mkCoord (tq (tord s) ++ [n]) Open (tfull (tord s))) s).
Proof.
  intros Hn Hc Hf. unfold tordFlush. rewrite (bind_Ret get _ s s s eq_refl).
  assert (E0 : (if chan_full (tord s) then drv_flush else ret None) s = Ret None s).
  { destruct (chan_full (tord s)); [|reflexivity].
    destruct Hf as [Hf|Hf]; [discriminate|].
    unfold drv_flush. destruct (dfail (drv s)) as [[|k]|]; [congruence|reflexivity|reflexivity]. }
  rewrite (bind_Ret _ _ s None s E0).
  destruct ((127 <? n) || (n <? -128)) eqn:E.
  - apply orb_true_iff in E. destruct E as [E|E]; apply Z.ltb_lt in E; lia.
  - unfold bind, send. rewrite Hc. reflexivity.
Qed.

(** The side condition of [tordFlush_ok] on a driver that never fails. *)
Lemma flush_ok_None (s : Master) : dfail (drv s) = None ->
  chan_full (tord s) = false \/ dfail (drv s) <> Some O.
Proof. intros H. right. rewrite H. discriminate. Qed.

Ltac tf_side :=
  solve [apply flush_ok_None; first [assumption | reflexivity | simpl; assumption | simpl; congruence]].

Lemma drv_write_ok (p : list Z) (s : Master) : dfail (drv s) = None ->
  drv_write p s = Ret None (set_drv (mkDriver (dout (drv s) ++ p) None) s).
Proof. intros H. unfold drv_write. rewrite H. reflexivity. Qed.

Lemma set_drv_twice d1 d2 s : set_drv d2 (set_drv d1 s) = set_drv d2 s.
Proof. reflexivity. Qed.

Lemma idle_loop_ok (k : nat) (ibuf : list Z) (s : Master) : dfail (drv s) = None ->
  idle_loop k ibuf None s =
  Ret None (set_drv (mkDriver (dout (drv s) ++ concat (repeat ibuf k)) None) s).
Proof.
  revert s. induction k as [|k IH]; intros s Hd.
  - destruct s as [[dd df] ? ? ? ? ? ? ? ? ? ? ? ? ? ? ? ?]; simpl in *; subst.
    rewrite app_nil_r. reflexivity.
  - cbn [idle_loop]. unfold bind. rewrite drv_write_ok by exact Hd.
    rewrite IH by reflexivity. simpl. rewrite <- app_assoc. reflexivity.
Qed.

Lemma repeat_pair (x : Z) (n : nat) : concat (repeat [x; x] n) = repeat x (2 * n).
Proof.
  induction n as [|n IH]; [reflexivity|].
  replace (2 * S n)%nat with (S (S (2 * n))) by lia. simpl. rewrite IH. reflexivity.
Qed.

Lemma emit_nil (s : Master) : good s -> emit s [] [] (fn s) = s.
Proof.
  intros (Hd & Hc & _).
  destruct s as [[dd df] [q cl tf] ? ? ? ? ? ? ? ? ? ? ? ? ? ? ?]; simpl in *; subst.
  unfold emit; simpl. rewrite !app_nil_r. reflexivity.
Qed.

Lemma emit_emit (s : Master) o1 d1 f1 o2 d2 f2 :
  emit (emit s o1 d1 f1) o2 d2 f2 = emit s (o1 ++ o2) (d1 ++ d2) f2.
Proof. unfold emit. simpl. rewrite !app_assoc. reflexivity. Qed.

Lemma wire_emit s o d f : wire (emit s o d f) = wire s.
Proof. reflexivity. Qed.

Lemma good_emit s o d f : good s -> good (emit s o d f).
Proof. intros (_ & _ & H). repeat split; simpl; lia. Qed.

Lemma frame_delay_ok (s : Master) (F i : Z) :
  good s -> flen s = F -> 0 < F -> 0 <= i -> (0 < delay s -> fn s = fn_at F i) ->
  frame_delay s = Ret None (emit s (delay_block s F i) (delay_dir s F i)
                                  (if 0 <? delay s then fn_at F (i + 1) else fn s)).
Proof.
  intros Hg Hf HF Hi Hfn. pose proof Hg as (Hd & Hc & Hde).
  unfold frame_delay, get, bind, delay_block, delay_dir, delay_here, idle_of.
  destruct (Z.ltb_spec 0 (delay s)) as [Hp|Hp]; cbn [andb].
  - rewrite (Hfn Hp), Hf. destruct (fn_at_step F i HF Hi) as [E1 E2].
    rewrite E1 in E2 |- *.
    destruct ((0 <? i) && (i mod F =? 0)).
    + rewrite tordFlush_ok by (first [tf_side | idtac]; try exact Hc; simpl; lia). rewrite idle_loop_ok by exact Hd.
      unfold modify, incr_fn, ret. rewrite <- E2. cbn [length Z.of_nat].
      rewrite repeat_pair. replace (Z.to_nat (2 * delay s)) with (2 * Z.to_nat (delay s))%nat by lia.
      replace (- (2 * delay s)) with (- delay s * Z.of_nat 2) by lia.
      destruct s as [[dd df] [q cl tf] ? ? ? ? ? ? ? ? ? ? ? ? ? ? ?]; simpl in *; subst.
      reflexivity.
    + unfold incr_fn, modify, ret. rewrite <- E2, <- (Hfn Hp).
      destruct s as [[dd df] [q cl tf] ? ? ? ? ? ? ? ? ? ? ? ? ? ? ?]; simpl in *; subst.
      unfold emit; simpl. rewrite !app_nil_r. reflexivity.
  - unfold ret. rewrite emit_nil by exact Hg. reflexivity.
Qed.

Lemma enc_loop_wire (s s' : Master) (m : Z) (k : nat) (u : Z) :
  wire s = wire s' -> enc_loop s m k u = enc_loop s' m k u.
Proof.
  intros H. unfold wire in H. injection H as Hb Hcf Hci Hs Hm Hl Hd.
  revert u. induction k as [|k IH]; intros u; cbn [enc_loop]; [reflexivity|].
  rewrite Hb, Hcf, Hm, Hs, Hl, IH. reflexivity.
Qed.

Lemma encode_wire (s s' : Master) (b : Z) : wire s = wire s' -> encode s b = encode s' b.
Proof.
  intros H. unfold encode, first_mask.
  assert (Hl : lsbf s = lsbf s') by (unfold wire in H; congruence).
  rewrite Hl. apply enc_loop_wire. exact H.
Qed.

Lemma frames_wire (s s' : Master) (F i : Z) (data : list Z) : wire s = wire s' ->
  frames_out s F i data = frames_out s' F i data /\
  frames_dirs s F i data = frames_dirs s' F i data.
Proof.
  intros H. assert (H' := H). unfold wire in H'. injection H' as Hb Hcf Hci Hs Hm Hl Hd.
  revert i. induction data as [|b d IH]; intros i; [split; reflexivity|].
  cbn [frames_out frames_dirs]. destruct (IH (i + 1)) as [E1 E2].
  unfold delay_block, delay_dir, delay_here, idle_of.
  rewrite E1, E2, Hb, Hci, Hd, (encode_wire s s' b H). split; reflexivity.
Qed.

Lemma writeByte_ok (s : Master) (F i b : Z) :
  good s -> flen s = F -> 0 < F -> 0 <= i -> (0 < delay s -> fn s = fn_at F i) ->
  writeByte b (first_mask s) s =
  Ret None (emit s (delay_block s F i ++ encode s b) (delay_dir s F i ++ [16])
                 (if 0 <? delay s then fn_at F (i + 1) else fn s)).
Proof.
  intros Hg Hf HF Hi Hfn.
  unfold writeByte. rewrite (bind_Ret _ _ _ _ _ (frame_delay_ok s F i Hg Hf HF Hi Hfn)).
  set (f1 := if 0 <? delay s then fn_at F (i + 1) else fn s).
  set (s1 := emit s (delay_block s F i) (delay_dir s F i) f1).
  assert (G1 : good s1) by (apply good_emit; exact Hg).
  destruct G1 as (Hd1 & Hc1 & _).
  unfold get, bind.
  rewrite (enc_loop_wire s1 s) by reflexivity.
  change (enc_loop s (first_mask s) 8 b) with (encode s b).
  rewrite encode_length. rewrite tordFlush_ok by (first [tf_side | idtac]; try exact Hc1; simpl; lia).
  cbn [is_none]. rewrite drv_write_ok by exact Hd1.
  unfold ret, s1, emit. simpl. rewrite !app_assoc. reflexivity.
Qed.

Lemma write_loop_ok (data : list Z) : forall (s : Master) (F i k : Z),
  good s -> flen s = F -> 0 < F -> 0 <= i -> (0 < delay s -> fn s = fn_at F i) ->
  write_loop (first_mask s) k data s =
  Ret None (emit s (frames_out s F i data) (frames_dirs s F i data)
                 (if 0 <? delay s then fn_at F (i + Z.of_nat (List.length data)) else fn s)).
Proof.
  induction data as [|b d IH]; intros s F i k Hg Hf HF Hi Hfn.
  - cbn [write_loop frames_out frames_dirs List.length Z.of_nat]. unfold ret.
    rewrite Z.add_0_r. destruct (Z.ltb_spec 0 (delay s)) as [Hp|Hp].
    + rewrite <- (Hfn Hp), emit_nil by exact Hg. reflexivity.
    + rewrite emit_nil by exact Hg. reflexivity.
  - cbn [write_loop]. rewrite (bind_Ret _ _ _ _ _ (writeByte_ok s F i b Hg Hf HF Hi Hfn)).
    set (s1 := emit s (delay_block s F i ++ encode s b) (delay_dir s F i ++ [16])
                 (if 0 <? delay s then fn_at F (i + 1) else fn s)).
    change (first_mask s) with (first_mask s1).
    rewrite (IH s1 F (i + 1) (k + 1)).
    + unfold s1. rewrite emit_emit.
      destruct (frames_wire (emit s (delay_block s F i ++ encode s b) (delay_dir s F i ++ [16])
                 (if 0 <? delay s then fn_at F (i + 1) else fn s)) s F (i + 1) d
                 (wire_emit _ _ _ _)) as [E1 E2].
      rewrite E1, E2. cbn [frames_out frames_dirs delay_dir]. simpl (delay _).
      rewrite !app_assoc. f_equal. f_equal.
      destruct (0 <? delay s); [f_equal; simpl List.length; lia | reflexivity].
    + apply good_emit. exact Hg.
    + exact Hf.
    + exact HF.
    + lia.
    + simpl. intros Hp. apply Z.ltb_lt in Hp. rewrite Hp. reflexivity.
Qed.

Lemma Write_ok (s : Master) (data : list Z) :
  good s -> 0 < flen s -> (0 < delay s -> fn s = fn_at (flen s) 0) ->
  Write data s =
  Ret (Z.of_nat (List.length data), None)
      (emit s (frames_out s (flen s) 0 data) (frames_dirs s (flen s) 0 data)
            (if 0 <? delay s then fn_at (flen s) (Z.of_nat (List.length data)) else fn s)).
Proof.
  intros Hg HF Hfn. unfold Write, get, bind at 1.
  destruct (Z.ltb_spec (flen s) 0); [lia|].
  rewrite (bind_Ret _ _ _ _ _ (write_loop_ok data s (flen s) 0 0 Hg eq_refl HF (Z.le_refl 0) Hfn)).
  reflexivity.
Qed.

Lemma Begin_ok (s : Master) :
  good s -> wmtx s = false -> (Z.of_nat (List.length (pre s)) + 1 <= 128)%Z ->
  Begin s =
  Ret None (emit (set_wmtx true (set_flen (- flen s) s))
                 (pre s ++ (if cpha1 s then [idle_of s] else []))
                 [- (Z.of_nat (List.length (pre s)) + (if cpha1 s then 1 else 0))] 0).
Proof.
  intros (Hd & Hc & _) Hw Hp.
  destruct s as [[dd df] [q cl tf] we wm f pr po sc mo mi ba ci cf c1 ls fl de];
    simpl in *; subst.
  unfold Begin, lock, modify, get, bind, ret. simpl.
  rewrite tordFlush_ok by (first [tf_side | idtac]; simpl; try reflexivity; destruct c1; lia).
  destruct pr, c1; simpl; unfold emit; simpl; rewrite ?app_nil_r, <- ?app_assoc;
    reflexivity.
Qed.

Lemma End_ok (s : Master) :
  good s -> wmtx s = true -> (Z.of_nat (List.length (post s)) + 1 <= 128)%Z ->
  End s =
  Ret None (set_wmtx false
             (emit (set_flen (- flen s) s)
                   ((if cpha1 s then [] else [idle_of s]) ++ post s)
                   [- (Z.of_nat (List.length (post s)) + (if cpha1 s then 0 else 1))] (fn s))).
Proof.
  intros (Hd & Hc & _) Hw Hp.
  destruct s as [[dd df] [q cl tf] we wm f pr po sc mo mi ba ci cf c1 ls fl de];
    simpl in *; subst.
  unfold End, modify, get, bind, ret. simpl.
  rewrite tordFlush_ok by (first [tf_side | idtac]; simpl; try reflexivity; destruct c1; lia).
  destruct po, c1; simpl; unfold emit; simpl; rewrite ?app_nil_r, <- ?app_assoc;
    reflexivity.
Qed.

Lemma txn_ok (s : Master) (data : list Z) :
  good s -> wmtx s = false -> flen s < 0 ->
  (Z.of_nat (List.length (pre s)) + 1 <= 128)%Z ->
  (Z.of_nat (List.length (post s)) + 1 <= 128)%Z ->
  exists s', txn data s = Ret None s' /\ good s' /\ static s' = static s /\
   dout (drv s') =
     dout (drv s) ++ (pre s ++ (if cpha1 s then [idle_of s] else []))
       ++ frames_out s (- flen s) 0 data
       ++ ((if cpha1 s then [] else [idle_of s]) ++ post s) /\
   tq (tord s') =
     tq (tord s) ++ [- (Z.of_nat (List.length (pre s)) + (if cpha1 s then 1 else 0))]
       ++ frames_dirs s (- flen s) 0 data
       ++ [- (Z.of_nat (List.length (post s)) + (if cpha1 s then 0 else 1))].
Proof.
  intros Hg Hw Hf Hp Hq. unfold txn.
  rewrite (bind_Ret _ _ _ _ _ (Begin_ok s Hg Hw Hp)).
  set (s1 := emit (set_wmtx true (set_flen (- flen s) s)) _ _ 0).
  assert (Hg1 : good s1) by (apply good_emit; destruct Hg as (? & ? & ?); repeat split; simpl; auto; lia).
  rewrite (bind_Ret _ _ _ _ _ (Write_ok s1 data Hg1 ltac:(simpl; lia) ltac:(reflexivity))).
  set (s2 := emit s1 _ _ _).
  assert (Hg2 : good s2) by (apply good_emit; exact Hg1).
  rewrite (End_ok s2 Hg2 eq_refl Hq).
  destruct (frames_wire s1 s (flen s1) 0 data eq_refl) as [Eo Ed].
  eexists; split; [reflexivity|].
  destruct Hg as (Hd & Hc & Hde).
  refine (conj _ (conj _ (conj _ _))).
  - repeat split; simpl; auto; lia.
  - unfold static; simpl. rewrite Z.opp_involutive, Hw. reflexivity.
  - subst s2 s1; simpl in *. rewrite Eo, <- ?app_assoc. reflexivity.
  - subst s2 s1; simpl in *. rewrite Ed, <- ?app_assoc. reflexivity.
Qed.

Lemma div_step (F j : Z) : 0 < F -> 0 <= j ->
  (j + 1) / F = j / F + (if (j + 1) mod F =? 0 then 1 else 0).
Proof.
  intros HF Hj.
  pose proof (Z.div_mod j F ltac:(lia)) as Hd.
  pose proof (Z.mod_pos_bound j F HF) as Hr.
  set (q := j / F) in *. set (r := j mod F) in *.
  destruct (Z.eq_dec (r + 1) F) as [E|E].
  - assert (Hm : (j + 1) mod F = 0).
    { symmetry. apply (Z.mod_unique_pos _ _ (q + 1)); lia. }
    rewrite Hm. simpl.
    symmetry. apply (Z.div_unique_pos _ _ _ 0); lia.
  - assert (Hm : (j + 1) mod F = r + 1).
    { symmetry. apply (Z.mod_unique_pos _ _ q); lia. }
    rewrite Hm. destruct (Z.eqb_spec (r + 1) 0); [lia|].
    rewrite Z.add_0_r. symmetry. apply (Z.div_unique_pos _ _ _ (r + 1)); lia.
Qed.

Lemma delay_block_length (s : Master) (F i : Z) : 0 < F -> 0 <= i -> 0 <= delay s ->
  Z.of_nat (List.length (delay_block s F i)) =
  2 * delay s * (gcount F (i + 1) - gcount F i).
Proof.
  intros HF Hi Hd. unfold delay_block, delay_here, gcount.
  destruct (Z.eqb_spec i 0) as [->|Hi0].
  - rewrite andb_false_r. cbn [andb List.length Z.of_nat].
    replace (Z.max 0 (0 + 1 - 1)) with 0 by lia.
    replace (Z.max 0 (0 - 1)) with 0 by lia. rewrite Z.div_0_l by lia. lia.
  - rewrite !Z.max_r by lia.
    replace (i + 1 - 1) with (i - 1 + 1) by lia.
    rewrite (div_step F (i - 1)) by lia.
    replace (i - 1 + 1) with i by lia.
    replace (0 <? i) with true by (symmetry; apply Z.ltb_lt; lia).
    destruct (Z.ltb_spec 0 (delay s)); [| replace (delay s) with 0 by lia];
      destruct (i mod F =? 0); cbn [andb List.length Z.of_nat];
      rewrite ?repeat_length, ?Z2Nat.id by lia; lia.
Qed.

Lemma frames_out_length (s : Master) (F i : Z) (data : list Z) :
  0 < F -> 0 <= i -> 0 <= delay s ->
  Z.of_nat (List.length (frames_out s F i data)) =
  16 * Z.of_nat (List.length data)
  + 2 * delay s * (gcount F (i + Z.of_nat (List.length data)) - gcount F i).
Proof.
  intros HF. revert i. induction data as [|b d IH]; intros i Hi Hd.
  - cbn [frames_out List.length Z.of_nat]. rewrite Z.add_0_r. lia.
  - cbn [frames_out]. rewrite !length_app, !Nat2Z.inj_add, encode_length.
    rewrite delay_block_length by lia. rewrite IH by lia.
    change (Z.of_nat 16) with 16. cbn [List.length].
    rewrite (Nat2Z.inj_succ (List.length d)).
    replace (i + 1 + Z.of_nat (List.length d)) with (i + Z.succ (Z.of_nat (List.length d)))
      by lia.
    ring.
Qed.

Lemma frames_zero_delay (s : Master) (F i : Z) (data : list Z) : delay s = 0 ->
  frames_out s F i data = flat_map (encode s) data /\
  frames_dirs s F i data = repeat 16 (List.length data).
Proof.
  intros H. revert i. induction data as [|b d IH]; intros i; [split; reflexivity|].
  destruct (IH (i + 1)) as [E1 E2].
  cbn [frames_out frames_dirs flat_map]; unfold delay_block, delay_dir, delay_here.
  rewrite H, E1, E2. split; reflexivity.
Qed.

(** C8.  In a transaction ([Begin], [Write data], [End]) from an unlocked
    master, configured with frame length [F = - flen s] and a driver that
    never fails, the bytes handed to the driver are: [pre], the CPHA1 idle
    byte, the frames [frames_out s F 0 data], the CPHA0 idle byte, then
    [post].  [frames_out] places before data byte [i] (0-based, [i > 0],
    [i mod F = 0], that is between the [kF]-th and [(kF+1)]-th byte)
    exactly [2 * delay] copies of [base | cidle] when [delay > 0], with the
    single directive [-(2 * delay)] in [frames_dirs].  When [delay = 0] the
    frames are the bare encodings and one [16] per byte, and [Write] gives
    the same streams whatever the value of [fn]. *)
Theorem frame_delays (s : Master) (data : list Z) :
  good s -> wmtx s = false -> flen s < 0 ->
  (Z.of_nat (List.length (pre s)) + 1 <= 128)%Z ->
  (Z.of_nat (List.length (post s)) + 1 <= 128)%Z ->
  (exists s', txn data s = Ret None s' /\
   dout (drv s') =
     dout (drv s) ++ (pre s ++ (if cpha1 s then [idle_of s] else []))
       ++ frames_out s (- flen s) 0 data
       ++ ((if cpha1 s then [] else [idle_of s]) ++ post s) /\
   tq (tord s') =
     tq (tord s) ++ [- (Z.of_nat (List.length (pre s)) + (if cpha1 s then 1 else 0))]
       ++ frames_dirs s (- flen s) 0 data
       ++ [- (Z.of_nat (List.length (post s)) + (if cpha1 s then 0 else 1))]) /\
  (forall i, delay_block s (- flen s) i =
             (if (0 <? delay s) && (0 <? i) && (i mod (- flen s) =? 0)
              then repeat (Z.lor (base s) (cidle s)) (Z.to_nat (2 * delay s)) else []) /\
             delay_dir s (- flen s) i =
             (if (0 <? delay s) && (0 <? i) && (i mod (- flen s) =? 0)
              then [- (2 * delay s)] else [])) /\
  (delay s = 0 ->
   frames_out s (- flen s) 0 data = flat_map (encode s) data /\
   frames_dirs s (- flen s) 0 data = repeat 16 (List.length data) /\
   forall (t : Master) (x : Z), good t -> 0 < flen t -> delay t = 0 ->
     streams (Write data (set_fn x t)) = streams (Write data t)).
Proof.
  intros Hg Hw Hf Hp Hq.
  split; [| split].
  - destruct (txn_ok s data Hg Hw Hf Hp Hq) as (s' & E & _ & _ & Eo & Ed).
    exists s'. split; [exact E | split; assumption].
  - intros i. split; reflexivity.
  - intros H0. destruct (frames_zero_delay s (- flen s) 0 data H0) as [E1 E2].
    split; [exact E1 | split; [exact E2|]].
    intros t x Ht Hft Hdt.
    assert (Hgx : good (set_fn x t)) by exact Ht.
    rewrite (Write_ok (set_fn x t) data Hgx Hft (fun H => ltac:(simpl in H; lia))).
    rewrite (Write_ok t data Ht Hft (fun H => ltac:(lia))).
    destruct (frames_wire (set_fn x t) t (flen t) 0 data eq_refl) as [Eo Ed].
    unfold streams, final. simpl. rewrite Eo, Ed. reflexivity.
Qed.

Lemma frame_delays_witness :
  let s := t_cfg (mkConfig 0 2 1) in let data := [85; 170; 240] in
  (exists s', txn data s = Ret None s' /\
   dout (drv s') =
     dout (drv s) ++ (pre s ++ (if cpha1 s then [idle_of s] else []))
       ++ frames_out s (- flen s) 0 data
       ++ ((if cpha1 s then [] else [idle_of s]) ++ post s) /\
   tq (tord s') =
     tq (tord s) ++ [- (Z.of_nat (List.length (pre s)) + (if cpha1 s then 1 else 0))]
       ++ frames_dirs s (- flen s) 0 data
       ++ [- (Z.of_nat (List.length (post s)) + (if cpha1 s then 0 else 1))]) /\
  (forall i, delay_block s (- flen s) i =
             (if (0 <? delay s) && (0 <? i) && (i mod (- flen s) =? 0)
              then repeat (Z.lor (base s) (cidle s)) (Z.to_nat (2 * delay s)) else []) /\
             delay_dir s (- flen s) i =
             (if (0 <? delay s) && (0 <? i) && (i mod (- flen s) =? 0)
              then [- (2 * delay s)] else [])) /\
  (delay s = 0 ->
   frames_out s (- flen s) 0 data = flat_map (encode s) data /\
   frames_dirs s (- flen s) 0 data = repeat 16 (List.length data) /\
   forall (t : Master) (x : Z), good t -> 0 < flen t -> delay t = 0 ->
     streams (Write data (set_fn x t)) = streams (Write data t)).
Proof.
  exact (frame_delays (t_cfg (mkConfig 0 2 1)) [85; 170; 240]
           ltac:(concrete) ltac:(concrete) ltac:(concrete)
           ltac:(concrete) ltac:(concrete)).
Defined.

(** C3 (amended).  In a transaction ([Begin], [Write data], [End]) from an
    unlocked master configured with frame length [F = - flen s], with a
    driver that never fails, the driver receives
    [len(pre) + 1 + 16 N + 2 delay floor(max(N - 1, 0) / F) + len(post)]
    bytes for [N] data bytes: a delay block precedes each data byte whose
    index is a positive multiple of [F], so none follows the last frame. *)
Theorem txn_length (s : Master) (data : list Z) :
  good s -> wmtx s = false -> flen s < 0 ->
  (Z.of_nat (List.length (pre s)) + 1 <= 128)%Z ->
  (Z.of_nat (List.length (post s)) + 1 <= 128)%Z ->
  exists s', txn data s = Ret None s' /\
  Z.of_nat (List.length (dout (drv s'))) - Z.of_nat (List.length (dout (drv s))) =
  Z.of_nat (List.length (pre s)) + 1 + 16 * Z.of_nat (List.length data)
  + 2 * delay s * (Z.max 0 (Z.of_nat (List.length data) - 1) / (- flen s))
  + Z.of_nat (List.length (post s)).
Proof.
  intros Hg Hw Hf Hp Hq.
  destruct (txn_ok s data Hg Hw Hf Hp Hq) as (s' & E & _ & _ & Eo & _).
  exists s'. split; [exact E|].
  assert (Hd : 0 <= delay s) by (destruct Hg as (_ & _ & H); lia).
  rewrite Eo, !length_app, !Nat2Z.inj_add.
  rewrite frames_out_length by lia. unfold gcount.
  replace (Z.max 0 (0 - 1)) with 0 by lia. rewrite Z.div_0_l by lia.
  rewrite Z.add_0_l, Z.sub_0_r.
  destruct (cpha1 s); cbn [List.length Z.of_nat]; rewrite ?length_app, ?Nat2Z.inj_add;
    cbn [List.length Z.of_nat]; lia.
Qed.

Lemma txn_length_witness :
  exists s', txn [85; 170; 240; 15] (t_cfg (mkConfig 0 1 1)) = Ret None s' /\
  Z.of_nat (List.length (dout (drv s'))) - Z.of_nat (List.length (dout (drv (t_cfg (mkConfig 0 1 1))))) =
  1 + 1 + 16 * 4 + 2 * 1 * (Z.max 0 (4 - 1) / 1) + 1.
Proof.
  exact (txn_length (t_cfg (mkConfig 0 1 1)) [85; 170; 240; 15]
           ltac:(concrete) ltac:(concrete) ltac:(concrete)
           ltac:(concrete) ltac:(concrete)).
Defined.

(** C3 as stated fails: spi_test.go's transaction of four bytes with
    frame length 1 and delay 1 hands 73 bytes to the driver, not the
    [1 + 1 + 16 * 4 + 2 * 1 * floor(4 / 1) + 1 = 75] of the formula. *)
Lemma txn_length_counterexample :
  Z.of_nat (List.length (t_run (mkConfig 0 1 1) [85; 170; 240; 15])) = 73 /\
  Z.of_nat (List.length (t_run (mkConfig 0 1 1) [85; 170; 240; 15]))
  <> 1 + 1 + 16 * 4 + 2 * 1 * (4 / 1) + 1.
Proof. vm_compute. split; [reflexivity | intro H; discriminate H]. Qed.

(** ** The write entry points *)

Lemma bind_Panic {S A B} (m : st S A) (k : A -> st S B) (s : S) msg (s' : S) :
  m s = Panic msg s' -> bind m k s = Panic msg s'.
Proof. unfold bind. intros ->. reflexivity. Qed.

Lemma bind_Block {S A B} (m : st S A) (k : A -> st S B) (s : S) (s' : S) :
  m s = Block s' -> bind m k s = Block s'.
Proof. unfold bind. intros ->. reflexivity. Qed.

Lemma bind_assoc_at {S A B C} (m : st S A) (f : A -> st S B) (g : B -> st S C) (s : S) :
  bind (bind m f) g s = bind m (fun a => bind (f a) g) s.
Proof. unfold bind. destruct (m s); reflexivity. Qed.

Lemma keeps_ret {A} (a : A) : keeps (ret a).
Proof. intros s a' s' H. injection H as _ <-. split; reflexivity. Qed.

Lemma keeps_bind {A B} (m : M A) (k : A -> M B) :
  keeps m -> (forall a, keeps (k a)) -> keeps (bind m k).
Proof.
  intros Hm Hk s b s'. unfold bind.
  destruct (m s) as [a s1| |] eqn:E; try discriminate. intros H.
  destruct (Hk a s1 b s' H), (Hm s a s1 E). split; congruence.
Qed.

Lemma keeps_get : keeps get.
Proof. intros s a s' H. injection H as _ H; subst. split; reflexivity. Qed.

Lemma keeps_panic {A} msg : keeps (A := A) (panic msg).
Proof. intros s a s' H. discriminate H. Qed.

Lemma keeps_modify f : (forall s, wire (f s) = wire s /\ flen (f s) = flen s) ->
  keeps (modify f).
Proof. intros Hf s a s' H. injection H as H. subst s'. apply Hf. Qed.

Lemma keeps_drv_write p : keeps (drv_write p).
Proof.
  intros s a s'. unfold drv_write.
  destruct (dfail (drv s)) as [[|k]|]; intros H; injection H as _ H; subst; split; reflexivity.
Qed.

Lemma keeps_send n : keeps (send n).
Proof.
  intros s a s'. unfold send.
  destruct (tst (tord s)); intros H; try discriminate H.
  injection H as H; subst. split; reflexivity.
Qed.

Lemma keeps_close : keeps close.
Proof.
  intros s a s'. unfold close.
  destruct (tst (tord s)); intros H; try discriminate H.
  injection H as H; subst. split; reflexivity.
Qed.

Lemma keeps_drv_flush : keeps drv_flush.
Proof.
  intros s a s'. unfold drv_flush.
  destruct (dfail (drv s)) as [[|k]|]; intros H; injection H as _ H; subst; split; reflexivity.
Qed.

Lemma keeps_idle_loop k ibuf err : keeps (idle_loop k ibuf err).
Proof.
  revert err. induction k as [|k IH]; intros [e|]; cbn [idle_loop];
    try apply keeps_ret.
  apply keeps_bind; [apply keeps_drv_write | intros; apply IH].
Qed.

Ltac keeps_tac :=
  repeat match goal with
  | x : option _ |- _ => destruct x
  | |- keeps (bind _ _) => apply keeps_bind; [|intros ?]
  | |- keeps (ret _) => apply keeps_ret
  | |- keeps get => apply keeps_get
  | |- keeps (panic _) => apply keeps_panic
  | |- keeps (drv_write _) => apply keeps_drv_write
  | |- keeps drv_flush => apply keeps_drv_flush
  | |- keeps (send _) => apply keeps_send
  | |- keeps close => apply keeps_close
  | |- keeps (idle_loop _ _ _) => apply keeps_idle_loop
  | |- keeps (modify _) => apply keeps_modify; intros; split; reflexivity
  | |- keeps (if ?b then _ else _) => destruct b
  end.

Lemma keeps_tordFlush n : keeps (tordFlush n).
Proof. unfold tordFlush. keeps_tac. Qed.

Lemma keeps_werror e : keeps (werror e).
Proof. unfold werror. keeps_tac. Qed.

Lemma keeps_frame_delay : keeps frame_delay.
Proof.
  unfold frame_delay, incr_fn. cbv zeta. keeps_tac;
    first [apply keeps_tordFlush | apply keeps_werror].
Qed.

Lemma keeps_writeByte b mask : keeps (writeByte b mask).
Proof.
  unfold writeByte. cbv zeta.
  apply keeps_bind; [apply keeps_frame_delay|]. intros [e|]; keeps_tac;
    first [apply keeps_tordFlush | apply keeps_werror].
Qed.

(** Run both sides of a goal past a step [E : m s = o]. *)
Ltac run_at E :=
  repeat first [ rewrite (bind_Ret _ _ _ _ _ E)
               | rewrite (bind_Panic _ _ _ _ _ E)
               | rewrite (bind_Block _ _ _ _ E) ].

Lemma wn_loop_S (buf : list Z) (k : Z) (r : nat) (s : Master) :
  wn_loop buf k (S r) s =
  (e <- frame_delay;;
   match e with
   | Some e => ret (Some (k, e))
   | None =>
       err <- tordFlush (Z.of_nat (length buf));;
       err <- (if is_none err then drv_write buf else ret err);;
       match err with
       | Some e => werror e;;; ret (Some (k, e))
       | None => wn_loop buf (k + 1) r
       end
   end) s.
Proof. reflexivity. Qed.

(** [WriteN]'s loop, with its window [buf] encoded once, runs as [Write]'s
    loop on [r] copies of the byte: no step changes the encoder's fields. *)
Lemma wn_loop_eq (b mask : Z) (buf : list Z) (r : nat) :
  forall k s, buf = enc_loop s mask 8 b ->
  wn_loop buf k r s = write_loop mask k (repeat b r) s.
Proof.
  induction r as [|r IH]; intros k s Hb; [reflexivity|].
  rewrite wn_loop_S. cbn [repeat write_loop]. unfold writeByte.
  rewrite bind_assoc_at.
  destruct (frame_delay s) as [e s2|m s2|s2] eqn:E; run_at E; try reflexivity.
  destruct (keeps_frame_delay s e s2 E) as [Hw2 _].
  destruct e as [e|]; [reflexivity|].
  rewrite bind_assoc_at, (bind_Ret get _ s2 s2 s2 eq_refl). cbv beta zeta.
  rewrite (enc_loop_wire s2 s mask 8 b Hw2), <- Hb.
  rewrite bind_assoc_at.
  destruct (tordFlush (Z.of_nat (length buf)) s2) as [a3 s3|m s3|s3] eqn:E3;
    run_at E3; try reflexivity.
  destruct (keeps_tordFlush _ s2 a3 s3 E3) as [Hw3 _].
  rewrite bind_assoc_at.
  destruct ((if is_none a3 then drv_write buf else ret a3) s3) as [a4 s4|m s4|s4] eqn:E4;
    run_at E4; try reflexivity.
  assert (Hw4 : wire s4 = wire s3).
  { destruct (is_none a3).
    - exact (proj1 (keeps_drv_write _ s3 a4 s4 E4)).
    - exact (proj1 (keeps_ret a3 s3 a4 s4 E4)). }
  destruct a4 as [e|].
  - rewrite bind_assoc_at.
    destruct (werror e s4) as [a5 s5|m s5|s5] eqn:E5; run_at E5; reflexivity.
  - rewrite (bind_Ret (ret None) _ s4 None s4 eq_refl).
    apply IH. rewrite Hb. apply enc_loop_wire. congruence.
Qed.

Lemma string_get_skipn (str : string) (k : nat) : (k < String.length str)%nat ->
  exists c, String.get k str = Some c /\
  skipn k (list_ascii_of_string str) = c :: skipn (S k) (list_ascii_of_string str).
Proof.
  revert k. induction str as [|a str IH]; intros k Hk; cbn [String.length] in Hk; [lia|].
  destruct k as [|k]; [exists a; split; reflexivity|].
  destruct (IH k ltac:(lia)) as (c & Hg & Hs). exists c. split; [exact Hg|].
  cbn [list_ascii_of_string skipn]. exact Hs.
Qed.

Lemma length_bytes_of_string (str : string) :
  List.length (bytes_of_string str) = String.length str.
Proof.
  unfold bytes_of_string. rewrite length_map.
  induction str as [|a str IH]; cbn; congruence.
Qed.

(** [WriteString]'s loop over the string's bytes is [Write]'s loop. *)
Lemma ws_loop_eq (mask : Z) (str : string) (r : nat) :
  forall k s, (k + r = String.length str)%nat ->
  ws_loop mask str k r s = write_loop mask (Z.of_nat k) (skipn k (bytes_of_string str)) s.
Proof.
  induction r as [|r IH]; intros k s Hk.
  - rewrite skipn_all2 by (rewrite length_bytes_of_string; lia). reflexivity.
  - destruct (string_get_skipn str k ltac:(lia)) as (c & Hg & Hs).
    cbn [ws_loop]. rewrite Hg. unfold bytes_of_string. rewrite skipn_map, Hs.
    cbn [map write_loop]. unfold bind.
    destruct (writeByte (byte_of c) mask s) as [[e|] s'| |]; try reflexivity.
    rewrite IH by lia. unfold bytes_of_string. rewrite skipn_map.
    replace (Z.of_nat (S k)) with (Z.of_nat k + 1) by lia. reflexivity.
Qed.

(** Calling [WriteByte] per byte runs [Write]'s loop, less the index. *)
Lemma WriteBytes_eq (data : list Z) :
  forall k s, 0 <= flen s ->
  WriteBytes data s = omap (option_map snd) (write_loop (first_mask s) k data s).
Proof.
  induction data as [|b d IH]; intros k s Hf; [reflexivity|].
  cbn [WriteBytes write_loop].
  assert (HW : WriteByte b s = writeByte b (first_mask s) s).
  { unfold WriteByte, bind, get. replace (flen s <? 0) with false
      by (symmetry; apply Z.ltb_ge; lia). reflexivity. }
  destruct (writeByte b (first_mask s) s) as [a s'|m s'|s'] eqn:E.
  - rewrite (bind_Ret _ _ _ _ _ HW), (bind_Ret _ _ _ _ _ E).
    destruct (keeps_writeByte b (first_mask s) s a s' E) as [Hw Hf'].
    destruct a as [e|]; [reflexivity|].
    rewrite (IH (k + 1) s') by lia.
    replace (first_mask s') with (first_mask s); [reflexivity|].
    assert (Hl : lsbf s' = lsbf s) by (unfold wire in Hw; congruence).
    unfold first_mask. rewrite Hl. reflexivity.
  - rewrite (bind_Panic _ _ _ _ _ HW), (bind_Panic _ _ _ _ _ E). reflexivity.
  - rewrite (bind_Block _ _ _ _ HW), (bind_Block _ _ _ _ E). reflexivity.
Qed.

Lemma streams_omap {A B} (f : A -> B) (o : outcome Master A) :
  streams (omap f o) = streams o.
Proof. destruct o; reflexivity. Qed.

Lemma Write_WriteBytes (s : Master) (data : list Z) : 0 <= flen s ->
  omap snd (Write data s) = WriteBytes data s.
Proof.
  intros Hf. rewrite (WriteBytes_eq data 0 s Hf).
  unfold Write, bind, get. replace (flen s <? 0) with false
    by (symmetry; apply Z.ltb_ge; lia).
  destruct (write_loop (first_mask s) 0 data s) as [[[k e]|] s'| |]; reflexivity.
Qed.

Lemma Write_WriteBytes_streams (s : Master) (data : list Z) :
  streams (Write data s) = streams (WriteBytes data s).
Proof.
  destruct (Z.ltb_spec (flen s) 0) as [Hf|Hf].
  - assert (HW : forall b, WriteByte b s = Panic "WriteByte outside Begin:End block" s).
    { intros b. unfold WriteByte, bind, get, panic. rewrite (proj2 (Z.ltb_lt _ _) Hf).
      reflexivity. }
    destruct data as [|b d]; cbn [WriteBytes].
    + unfold streams, Write, bind, get, panic. rewrite (proj2 (Z.ltb_lt _ _) Hf).
      reflexivity.
    + rewrite (bind_Panic _ _ _ _ _ (HW b)).
      unfold streams, Write, bind, get, panic. rewrite (proj2 (Z.ltb_lt _ _) Hf).
      reflexivity.
  - rewrite <- (Write_WriteBytes s data Hf), streams_omap. reflexivity.
Qed.

Lemma WriteString_Write (s : Master) (str : string) : 0 <= flen s ->
  WriteString str s = Write (bytes_of_string str) s.
Proof.
  intros Hf. unfold WriteString, Write, bind, get.
  replace (flen s <? 0) with false by (symmetry; apply Z.ltb_ge; lia).
  rewrite (ws_loop_eq _ str _ 0 s) by lia. cbn [skipn Z.of_nat].
  rewrite length_bytes_of_string.
  destruct (write_loop (first_mask s) 0 (bytes_of_string str) s)
    as [[[k e]|] s'| |]; reflexivity.
Qed.

Lemma WriteString_Write_streams (s : Master) (str : string) :
  streams (WriteString str s) = streams (Write (bytes_of_string str) s).
Proof.
  destruct (Z.ltb_spec (flen s) 0) as [Hf|Hf].
  - unfold streams, WriteString, Write, bind, get, panic.
    rewrite (proj2 (Z.ltb_lt _ _) Hf). reflexivity.
  - rewrite WriteString_Write by exact Hf. reflexivity.
Qed.

Lemma WriteN_Write (s : Master) (b n : Z) : 0 <= flen s -> 0 <= n ->
  WriteN b n s = Write (repeat b (Z.to_nat n)) s.
Proof.
  intros Hf Hn. unfold WriteN, Write, bind, get. cbv zeta.
  replace (flen s <? 0) with false by (symmetry; apply Z.ltb_ge; lia).
  rewrite (wn_loop_eq b (first_mask s) _ (Z.to_nat n) 0 s eq_refl).
  rewrite repeat_length, Z2Nat.id by exact Hn.
  destruct (write_loop (first_mask s) 0 (repeat b (Z.to_nat n)) s)
    as [[[k e]|] s'| |]; reflexivity.
Qed.

Lemma WriteN_Write_streams (s : Master) (b n : Z) :
  streams (WriteN b n s) = streams (Write (repeat b (Z.to_nat n)) s).
Proof.
  unfold streams, WriteN, Write, bind, get, panic. cbv zeta.
  destruct (flen s <? 0); [reflexivity|].
  rewrite (wn_loop_eq b (first_mask s) _ (Z.to_nat n) 0 s eq_refl).
  destruct (write_loop (first_mask s) 0 (repeat b (Z.to_nat n)) s)
    as [[[k e]|] s'| |]; reflexivity.
Qed.

(** C9.  For every master state, [Write data] hands the driver the same
    bytes and the coordinator the same directives as a client calling
    [WriteByte] on each byte of [data] in order (stopping at the first
    error), whose error it returns inside a transaction; [WriteString str]
    is [Write] of the bytes of [str]; [WriteN b n], with its own inlined
    loop over a window encoded once, is [Write] of [n] copies of [b].
    Inside a transaction ([0 <= flen]) the equalities hold of the whole
    outcome; outside one both sides panic at the same state (their
    messages name the entry point), and [WriteN] with [n < 0] returns [n]
    where [Write] of no byte returns 0. *)
Theorem write_entry_points :
  (forall s data, streams (Write data s) = streams (WriteBytes data s)) /\
  (forall s data, 0 <= flen s -> omap snd (Write data s) = WriteBytes data s) /\
  (forall s str, streams (WriteString str s) = streams (Write (bytes_of_string str) s)) /\
  (forall s str, 0 <= flen s -> WriteString str s = Write (bytes_of_string str) s) /\
  (forall s b n, streams (WriteN b n s) = streams (Write (repeat b (Z.to_nat n)) s)) /\
  (forall s b n, 0 <= flen s -> 0 <= n -> WriteN b n s = Write (repeat b (Z.to_nat n)) s).
Proof.
  refine (conj _ (conj _ (conj _ (conj _ (conj _ _))))).
  - exact Write_WriteBytes_streams.
  - exact Write_WriteBytes.
  - exact WriteString_Write_streams.
  - exact WriteString_Write.
  - exact WriteN_Write_streams.
  - exact WriteN_Write.
Qed.

Lemma write_entry_points_witness :
  omap snd (Write [85; 170] (t_open (mkConfig 0 1 1))) =
    WriteBytes [85; 170] (t_open (mkConfig 0 1 1)) /\
  WriteString "AB" (t_open (mkConfig 0 1 1)) =
    Write (bytes_of_string "AB") (t_open (mkConfig 0 1 1)) /\
  WriteN 85 3 (t_open (mkConfig 0 1 1)) =
    Write (repeat 85 (Z.to_nat 3)) (t_open (mkConfig 0 1 1)).
Proof.
  destruct write_entry_points as (_ & H2 & _ & H4 & _ & H6).
  split; [apply H2; concrete|].
  split; [apply H4; concrete | apply H6; concrete].
Defined.

(** ** Write calls outside a transaction, latched errors, flush marks *)

(** C10.  A write call outside a transaction does not always panic: a
    freshly constructed master has [flen = 0] ([init] zeroes it and only
    [Configure] makes it negative), so the [flen < 0] guard of [Write],
    [WriteString], [WriteByte] and [WriteN] lets each of them run, encode
    and hand 16 bytes to the driver, and return success. *)
Theorem write_outside_fresh :
  flen t_ma = 0 /\
  ret_of (Write [85] t_ma) = Some (1, None) /\
  dout (drv (final (Write [85] t_ma))) = encode t_ma 85 /\
  List.length (encode t_ma 85) = 16%nat /\
  ret_of (WriteString "U" t_ma) = Some (1, None) /\
  ret_of (WriteByte 85 t_ma) = Some None /\
  ret_of (WriteN 85 1 t_ma) = Some (1, None).
Proof. vm_compute. repeat split; reflexivity. Qed.

(** C7.  spi.go's [Begin] does not consult the latched error.  On a driver
    whose first [Write] fails, a first [Begin] returns the error, latches
    it, closes the coordinator and releases the mutex; a second [Begin]
    then panics (send on the closed coordinator) holding the mutex, where
    the later revision's [Begin] releases it and returns the latched
    error.  [Write] after a latched error panics the same way. *)
Theorem begin_after_error :
  let s1 := final (Begin (t_fail 0)) in
  ret_of (Begin (t_fail 0)) = Some (Some ErrDriver) /\
  werr s1 = Some ErrDriver /\ tst (tord s1) = Closed /\ wmtx s1 = false /\
  Begin s1 = Panic "send on closed channel" (final (Begin s1)) /\
  wmtx (final (Begin s1)) = true /\
  Rev2.Begin s1 = Ret (Some ErrDriver) s1 /\
  let s2 := final (Begin (t_fail 1)) in
  ret_of (Begin (t_fail 1)) = Some None /\
  ret_of (Write [85] s2) = Some (0, Some ErrDriver) /\
  werr (final (Write [85] s2)) = Some ErrDriver /\
  Write [85] (final (Write [85] s2)) =
    Panic "send on closed channel" (final (Write [85] (final (Write [85] s2)))).
Proof. vm_compute. repeat split; reflexivity. Qed.

(** C6.  After a transaction of spi.go with no pre bytes in mode 0, [Begin]
    has sent the directive [0] ([tordFlush(-0)]).  [Read] of one byte
    skips it ([m > 0] breaks its loop) and returns [(1, nil)]; [ReadN(1)]
    breaks on it ([m >= 0]), reads a 0-byte window and returns
    [(0, io.ErrUnexpectedEOF)]. *)
Theorem readn_flush_mark :
  tq (tord (t_plain [85])) = [0; 16; -1] /\
  ret_of (Read (t_plain [85]) 1 (reader_of (t_plain [85]) (dout (drv (t_plain [85]))))) =
    Some (1, None, [0]) /\
  ret_of (ReadN 1 (reader_of (t_plain [85]) (dout (drv (t_plain [85]))))) =
    Some (0, Some ErrUnexpectedEOF).
Proof. vm_compute. repeat split; reflexivity. Qed.

(** The later revision's [Read] with an empty buffer drains discard
    directives in [[-16, -1]], reading the bytes they name, up to a data
    directive (left for the next [Read], with [dr] set) or a flush mark. *)
Lemma discard_q_drain (ds q : list Z) (stop : Z) (r : Reader) :
  Forall (fun m => -16 <= m < 0) ds -> stop = 16 \/ stop = 0 ->
  (overhead ds <= List.length (rin r))%nat ->
  Rev2.discard_q false (ds ++ stop :: q) r =
  Ret None (mkReader q (rclosed r) (rwerr r) (skipn (overhead ds) (rin r))
                     (if stop =? 16 then true else rdr r)).
Proof.
  intros Hds Hst. revert r. induction Hds as [|m ds Hm Hds IH]; intros r Hl.
  - destruct Hst as [-> | ->]; reflexivity.
  - cbn [app Rev2.discard_q].
    change (overhead (m :: ds)) with (Z.to_nat (- m) + overhead ds)%nat in Hl |- *.
    destruct (Z.eqb_spec m 16); [lia|]. destruct (Z.eqb_spec m 0); [lia|].
    destruct (Z.ltb_spec 0 m); [lia|]. destruct (Z.ltb_spec 16 (- m)); [lia|].
    unfold read_full. cbn [rin set_rq].
    replace (Nat.leb (Z.to_nat (- m)) (List.length (rin r))) with true
      by (symmetry; apply Nat.leb_le; lia).
    unfold set_rin, set_rq. cbn [rq rclosed rwerr rin rdr].
    rewrite IH by (cbn [rin]; rewrite length_skipn; lia).
    cbn [rclosed rwerr rin rdr]. rewrite skipn_skipn, Nat.add_comm. reflexivity.
Qed.

Lemma Rev2_drain (ma : Master) (ds q : list Z) (stop : Z) (r : Reader) :
  Forall (fun m => -16 <= m < 0) ds -> stop = 16 \/ stop = 0 -> rdr r = false ->
  (overhead ds <= List.length (rin r))%nat ->
  Rev2.Read ma 0 (set_rq (ds ++ stop :: q) r) =
  Ret (0, None, []) (mkReader q (rclosed r) (rwerr r) (skipn (overhead ds) (rin r))
                              (stop =? 16)).
Proof.
  intros Hds Hst Hr Hl. unfold Rev2.Read, Rev2.discard, bind. cbn [set_rq rdr rq]. rewrite Hr.
  rewrite discard_q_drain by exact Hds || exact Hst || (cbn [rin set_rq]; exact Hl).
  unfold set_rq, ret. cbn [rclosed rwerr rin rdr]. rewrite Hr.
  destruct Hst as [-> | ->]; reflexivity.
Qed.

(** C5.  spi.go's [Read] with an empty buffer returns [(0, nil)] without
    receiving a directive: it drains nothing.  The later revision drains
    through [discard], but its [SetPrePost] accepts 16 pre bytes, so in a
    CPHA1 mode [Begin] sends the directive [-17], and [Read] with an empty
    buffer panics on [bits[:17]] of its 16-byte array. *)
Theorem read_empty_drain :
  (forall (ma : Master) (r : Reader), Read ma 0 r = Ret (0, None, []) r) /\
  (forall (ma : Master) (ds q : list Z) (r : Reader),
     Forall (fun m => -16 <= m < 0) ds -> rdr r = false ->
     (overhead ds <= List.length (rin r))%nat ->
     Rev2.Read ma 0 (set_rq (ds ++ 0 :: q) r) =
     Ret (0, None, []) (mkReader q (rclosed r) (rwerr r) (skipn (overhead ds) (rin r)) false) /\
     Rev2.Read ma 0 (set_rq (ds ++ 16 :: q) r) =
     Ret (0, None, []) (mkReader q (rclosed r) (rwerr r) (skipn (overhead ds) (rin r)) true)) /\
  ret_of t_rev2_pre16 = Some None /\
  tq (tord (final t_rev2_pre16)) = [-17] /\
  Rev2.Read (final t_rev2_pre16) 0
    (reader_of (final t_rev2_pre16) (dout (drv (final t_rev2_pre16)))) =
  Panic "slice bounds out of range"
    (final (Rev2.Read (final t_rev2_pre16) 0
              (reader_of (final t_rev2_pre16) (dout (drv (final t_rev2_pre16)))))).
Proof.
  split; [intros ma r; reflexivity|].
  split.
  { intros ma ds q r Hds Hr Hl. split.
    - exact (Rev2_drain ma ds q 0 r Hds (or_intror eq_refl) Hr Hl).
    - exact (Rev2_drain ma ds q 16 r Hds (or_introl eq_refl) Hr Hl). }
  vm_compute. repeat split; reflexivity.
Qed.

(** * Further properties of the code *)

(** ** Reading a transaction back *)

Lemma decode_encode (s : Master) (b : Z) :
  (cfirst s = 0 \/ cfirst s = sclk s) -> 0 <= b < 256 ->
  Z.land (miso s) (mosi s) <> 0 ->
  Z.land (miso s) (Z.lor (base s) (sclk s)) = 0 ->
  decode (lsbf s) (miso s) (encode s b) = b.
Proof.
  intros Hcf Hb Hmm Hmb.
  unfold decode. rewrite encode_cells, dec_cells; [apply dec_order_bits; exact Hb|].
  intros bit. rewrite cellw_miso by assumption.
  destruct bit; [|reflexivity].
  rewrite Z.land_comm. destruct (Z.eqb_spec (Z.land (miso s) (mosi s)) 0); [contradiction | reflexivity].
Qed.

(** The inner loop of spi.go's [Read] and [ReadN] skips the overhead bytes
    of the directives that do not break it. *)
Lemma await_skip (brk : Z -> bool) (ds q : list Z) (m : Z) (r : Reader) :
  Forall (fun x => -16 <= x <= 0 /\ brk x = false) ds -> brk m = true ->
  (overhead ds <= List.length (rin r))%nat ->
  await_q brk (ds ++ m :: q) r =
  Ret (AData m) (mkReader q (rclosed r) (rwerr r) (skipn (overhead ds) (rin r)) (rdr r)).
Proof.
  intros Hds Hm. revert r. induction Hds as [|x ds [Hx Hb] Hds IH]; intros r Hl.
  - cbn [app await_q]. rewrite Hm. destruct r; reflexivity.
  - cbn [app await_q].
    change (overhead (x :: ds)) with (Z.to_nat (- x) + overhead ds)%nat in Hl |- *.
    rewrite Hb. destruct (Z.ltb_spec 16 (- x)); [lia|].
    unfold read_full. cbn [rin set_rq].
    replace (Nat.leb (Z.to_nat (- x)) (List.length (rin r))) with true
      by (symmetry; apply Nat.leb_le; lia).
    unfold set_rin, set_rq. cbn [rq rclosed rwerr rin rdr].
    rewrite IH by (cbn [rin]; rewrite length_skipn; lia).
    cbn [rclosed rwerr rin rdr]. rewrite skipn_skipn, Nat.add_comm. reflexivity.
Qed.

Lemma overhead_app (a b : list Z) : overhead (a ++ b) = (overhead a + overhead b)%nat.
Proof. induction a as [|x a IH]; simpl; [reflexivity | rewrite IH; lia]. Qed.

Lemma overhead_delay (s : Master) (F i : Z) : 0 <= delay s ->
  overhead (delay_dir s F i) = List.length (delay_block s F i).
Proof.
  intros Hd. unfold delay_dir, delay_block.
  destruct (delay_here s F i); simpl; [rewrite repeat_length; lia | reflexivity].
Qed.

Lemma read_window_16 (bs rest : list Z) (r : Reader) :
  List.length bs = 16%nat -> rin r = bs ++ rest ->
  read_window 16 r = Ret (inl bs) (set_rin rest r).
Proof.
  intros Hl Hr. unfold read_window, read_full. rewrite Hr. cbn [Z.ltb Z.compare].
  replace (Nat.leb (Z.to_nat 16) (List.length (bs ++ rest))) with true
    by (symmetry; apply Nat.leb_le; rewrite length_app; lia).
  change (Z.to_nat 16) with 16%nat.
  assert (E1 : firstn 16 (bs ++ rest) = bs)
    by (rewrite <- Hl, firstn_app, firstn_all, Nat.sub_diag; simpl; apply app_nil_r).
  assert (E2 : skipn 16 (bs ++ rest) = rest)
    by (rewrite <- Hl, skipn_app, skipn_all, Nat.sub_diag; reflexivity).
  rewrite E1, E2, Hl. reflexivity.
Qed.

Lemma skipn_length_app (a l : list Z) (n : nat) :
  skipn (List.length a + n) (a ++ l) = skipn n l.
Proof. induction a as [|x a IH]; [reflexivity | exact IH]. Qed.

Lemma delay_dir_range (s : Master) (F i : Z) : 0 <= delay s <= 8 ->
  Forall (fun x => -16 <= x < 0) (delay_dir s F i).
Proof.
  intros Hd. unfold delay_dir, delay_here.
  destruct (Z.ltb_spec 0 (delay s)); cbn [andb]; [|constructor].
  destruct (_ && _); [apply Forall_cons; [lia | apply Forall_nil] | apply Forall_nil].
Qed.

Section ReadBack.
Variables (ma s : Master) (F : Z).
Hypothesis Hls : lsbf ma = lsbf s.
Hypothesis Hmi : miso ma = miso s.
Hypothesis Hcf : cfirst s = 0 \/ cfirst s = sclk s.
Hypothesis Hmm : Z.land (miso s) (mosi s) <> 0.
Hypothesis Hmb : Z.land (miso s) (Z.lor (base s) (sclk s)) = 0.
Hypothesis Hde : 0 <= delay s <= 8.

Lemma read_loop_frames (data : list Z) :
  Forall (fun b => 0 <= b < 256) data ->
  forall i k pd px q rest r,
  Forall (fun x => -16 <= x <= 0) pd -> List.length px = overhead pd ->
  rq r = pd ++ frames_dirs s F i data ++ q ->
  rin r = px ++ frames_out s F i data ++ rest ->
  exists r', read_loop ma k (List.length data) r =
             Ret (k + Z.of_nat (List.length data), None, data) r'.
Proof.
  induction 1 as [|b d Hb Hd IH]; intros i k pd px q rest r Hpd Hpx Hq Hi.
  - exists r. cbn. rewrite Z.add_0_r. reflexivity.
  - cbn [List.length read_loop]. unfold bind at 1, await. rewrite Hq.
    cbn [frames_dirs frames_out] in Hq, Hi |- *.
    cbn [app]. replace (pd ++ (delay_dir s F i ++ 16 :: frames_dirs s F (i + 1) d) ++ q)
      with ((pd ++ delay_dir s F i) ++ 16 :: (frames_dirs s F (i + 1) d ++ q))
      by (rewrite <- !app_assoc; reflexivity).
    rewrite (await_skip (fun m => 0 <? m) (pd ++ delay_dir s F i)).
    + rewrite overhead_app, overhead_delay by lia.
      rewrite Hi, <- Hpx, skipn_length_app, <- app_assoc,
        <- (Nat.add_0_r (List.length (delay_block s F i))), skipn_length_app.
      cbn [skipn].
      unfold bind.
      rewrite (read_window_16 (encode s b) (frames_out s F (i + 1) d ++ rest))
        by (apply encode_length || reflexivity).
      destruct (IH (i + 1) (k + 1) [] [] q rest
                  (mkReader (frames_dirs s F (i + 1) d ++ q) (rclosed r) (rwerr r)
                     (frames_out s F (i + 1) d ++ rest) (rdr r)))
        as [r' E]; try reflexivity; [constructor|].
      unfold set_rin. cbn [rq rclosed rwerr rdr].
      exists r'. rewrite E. unfold ret. rewrite Hls, Hmi, decode_encode by assumption.
      f_equal. f_equal. f_equal. lia.
    + apply Forall_app. split.
      * eapply Forall_impl; [|exact Hpd]. intros x Hx; cbv beta in Hx. split; [exact Hx | cbv beta; apply Z.ltb_ge; lia].
      * eapply Forall_impl; [|apply delay_dir_range; exact Hde].
        intros x Hx; cbv beta in Hx. split; [lia | cbv beta; apply Z.ltb_ge; lia].
    + reflexivity.
    + rewrite overhead_app, overhead_delay, Hi, !length_app by lia. lia.
Qed.

Lemma readn_loop_frames (data : list Z) :
  forall n i k pd px q rest r,
  Forall (fun x => -16 <= x < 0) pd -> List.length px = overhead pd ->
  rq r = pd ++ frames_dirs s F i data ++ q ->
  rin r = px ++ frames_out s F i data ++ rest ->
  exists r', readn_loop n k (List.length data) r = Ret (n, None) r'.
Proof.
  induction data as [|b d IH]; intros n i k pd px q rest r Hpd Hpx Hq Hi.
  - exists r. reflexivity.
  - cbn [List.length readn_loop]. unfold bind at 1, await. rewrite Hq.
    cbn [frames_dirs frames_out] in Hq, Hi |- *.
    cbn [app]. replace (pd ++ (delay_dir s F i ++ 16 :: frames_dirs s F (i + 1) d) ++ q)
      with ((pd ++ delay_dir s F i) ++ 16 :: (frames_dirs s F (i + 1) d ++ q))
      by (rewrite <- !app_assoc; reflexivity).
    rewrite (await_skip (fun m => 0 <=? m) (pd ++ delay_dir s F i)).
    + rewrite overhead_app, overhead_delay by lia.
      rewrite Hi, <- Hpx, skipn_length_app, <- app_assoc,
        <- (Nat.add_0_r (List.length (delay_block s F i))), skipn_length_app.
      cbn [skipn].
      unfold bind.
      rewrite (read_window_16 (encode s b) (frames_out s F (i + 1) d ++ rest))
        by (apply encode_length || reflexivity).
      destruct (IH n (i + 1) (k + 1) [] [] q rest
                  (mkReader (frames_dirs s F (i + 1) d ++ q) (rclosed r) (rwerr r)
                     (frames_out s F (i + 1) d ++ rest) (rdr r)))
        as [r' E]; try reflexivity; [constructor|].
      unfold set_rin. cbn [rq rclosed rwerr rdr].
      exists r'. exact E.
    + apply Forall_app. split.
      * eapply Forall_impl; [|exact Hpd]. intros x Hx; cbv beta in Hx. split; [lia | cbv beta; apply Z.leb_gt; lia].
      * eapply Forall_impl; [|apply delay_dir_range; exact Hde].
        intros x Hx; cbv beta in Hx. split; [lia | cbv beta; apply Z.leb_gt; lia].
    + reflexivity.
    + rewrite overhead_app, overhead_delay, Hi, !length_app by lia. lia.
Qed.

End ReadBack.

(** A transaction read back through a loopback wiring.  After [Begin],
    [Write data], [End] on a fresh master whose driver never fails, a
    reader of the directives sent and of the bytes written (the driver
    echoing them, MOSI looped back to MISO) gets [data] back from
    [Read(make([]byte, len(data)))] with no error; [ReadN(len(data))]
    counts all of them too, provided [Begin]'s directive is negative.  The
    bound [16] on [len(pre)] (plus the CPHA1 idle byte) is that of the
    reader's 16-byte buffer. *)
Theorem txn_read_back (s : Master) (data : list Z) :
  good s -> wmtx s = false -> flen s < 0 -> tq (tord s) = [] -> dout (drv s) = [] ->
  Z.of_nat (List.length (pre s)) + (if cpha1 s then 1 else 0) <= 16 ->
  Z.of_nat (List.length (post s)) + 1 <= 128 ->
  (cfirst s = 0 \/ cfirst s = sclk s) ->
  Z.land (miso s) (mosi s) <> 0 -> Z.land (miso s) (Z.lor (base s) (sclk s)) = 0 ->
  Forall (fun b => 0 <= b < 256) data ->
  exists s', txn data s = Ret None s' /\
    ret_of (Read s' (List.length data) (reader_of s' (dout (drv s')))) =
      Some (Z.of_nat (List.length data), None, data) /\
    (0 < Z.of_nat (List.length (pre s)) + (if cpha1 s then 1 else 0) ->
     ret_of (ReadN (Z.of_nat (List.length data)) (reader_of s' (dout (drv s')))) =
       Some (Z.of_nat (List.length data), None)).
Proof.
  intros Hg Hw Hf Hq0 Hd0 Hp Hpo Hcf Hmm Hmb Hb.
  assert (Hp' : Z.of_nat (List.length (pre s)) + 1 <= 128) by (destruct (cpha1 s); lia).
  destruct (txn_ok s data Hg Hw Hf Hp' Hpo) as (s' & E & Hg' & Hst & Eo & Ed).
  assert (Hr : rq (reader_of s' (dout (drv s'))) = tq (tord s') /\
               rin (reader_of s' (dout (drv s'))) = dout (drv s')).
  { destruct Hg' as (_ & Ho & _). unfold reader_of. rewrite Ho. split; reflexivity. }
  exists s'. split; [exact E|].
  unfold static in Hst. injection Hst as _ _ _ _ _ Hmi Hls _ _ Hde _ _ _ _.
  pose proof Hg as (_ & _ & Hdel).
  set (n := Z.of_nat (List.length (pre s)) + (if cpha1 s then 1 else 0)) in *.
  set (px := pre s ++ (if cpha1 s then [idle_of s] else [])).
  assert (Hpx : List.length px = overhead [- n]).
  { unfold px, n, overhead. cbn [fold_right]. rewrite length_app.
    destruct (cpha1 s); cbn [List.length]; lia. }
  rewrite Hq0 in Ed. rewrite Hd0 in Eo. cbn [app] in Ed, Eo.
  split.
  - destruct (read_loop_frames s' s (- flen s) Hls Hmi Hcf Hmm Hmb Hdel data Hb 0 0 [- n] px
                [- (Z.of_nat (List.length (post s)) + (if cpha1 s then 0 else 1))]
                ((if cpha1 s then [] else [idle_of s]) ++ post s)
                (reader_of s' (dout (drv s'))))
      as [r' Er]; [| exact Hpx | rewrite (proj1 Hr); exact Ed | rewrite (proj2 Hr); exact Eo |].
    + constructor; [|constructor]. unfold n. destruct (cpha1 s); lia.
    + unfold Read. rewrite Er. reflexivity.
  - intros Hn. unfold ReadN. rewrite Nat2Z.id.
    destruct (readn_loop_frames s (- flen s) Hdel data (Z.of_nat (List.length data)) 0 0 [- n] px
                [- (Z.of_nat (List.length (post s)) + (if cpha1 s then 0 else 1))]
                ((if cpha1 s then [] else [idle_of s]) ++ post s)
                (reader_of s' (dout (drv s'))))
      as [r' Er]; [| exact Hpx | rewrite (proj1 Hr); exact Ed | rewrite (proj2 Hr); exact Eo |].
    + constructor; [lia | constructor].
    + rewrite Er. reflexivity.
Qed.

Lemma txn_read_back_witness :
  exists s', txn [85; 170; 240] (t_loop (mkConfig 0 2 1)) = Ret None s' /\
    ret_of (Read s' 3 (reader_of s' (dout (drv s')))) = Some (3, None, [85; 170; 240]) /\
    (0 < 1 + 0 -> ret_of (ReadN 3 (reader_of s' (dout (drv s')))) = Some (3, None)).
Proof.
  exact (txn_read_back (t_loop (mkConfig 0 2 1)) [85; 170; 240]
           ltac:(concrete) ltac:(concrete) ltac:(concrete) ltac:(concrete) ltac:(concrete)
           ltac:(concrete) ltac:(concrete) ltac:(left; vm_compute; reflexivity)
           ltac:(concrete) ltac:(concrete)
           ltac:(repeat apply Forall_cons; try apply Forall_nil; lia)).
Defined.

(** ** How [Write] calls compose inside a transaction *)

Lemma Write_at (s : Master) (data : list Z) (i : Z) :
  good s -> 0 < flen s -> 0 <= i -> (0 < delay s -> fn s = fn_at (flen s) i) ->
  Write data s =
  Ret (Z.of_nat (List.length data), None)
      (emit s (frames_out s (flen s) i data) (frames_dirs s (flen s) i data)
            (if 0 <? delay s then fn_at (flen s) (i + Z.of_nat (List.length data)) else fn s)).
Proof.
  intros Hg HF Hi Hfn. unfold Write, get, bind at 1.
  destruct (Z.ltb_spec (flen s) 0); [lia|].
  rewrite (bind_Ret _ _ _ _ _ (write_loop_ok data s (flen s) i 0 Hg eq_refl HF Hi Hfn)).
  reflexivity.
Qed.

Lemma frames_app (s : Master) (F : Z) (d1 d2 : list Z) : forall i,
  frames_out s F i (d1 ++ d2) =
    frames_out s F i d1 ++ frames_out s F (i + Z.of_nat (List.length d1)) d2 /\
  frames_dirs s F i (d1 ++ d2) =
    frames_dirs s F i d1 ++ frames_dirs s F (i + Z.of_nat (List.length d1)) d2.
Proof.
  induction d1 as [|b d IH]; intros i.
  - rewrite Z.add_0_r. split; reflexivity.
  - cbn [app frames_out frames_dirs]. destruct (IH (i + 1)) as [E1 E2].
    rewrite E1, E2, <- !app_assoc.
    replace (i + 1 + Z.of_nat (List.length d)) with (i + Z.of_nat (List.length (b :: d)))
      by (cbn [List.length]; lia).
    split; reflexivity.
Qed.

(** Inside a transaction, two [Write] calls in a row leave the master in
    the state one [Write] of the concatenated data leaves it in: the same
    bytes to the driver, the same directives, the same frame position (for
    a driver that never fails, from any position [i] of the frame
    schedule). *)
Theorem Write_split (s : Master) (d1 d2 : list Z) (i : Z) :
  good s -> 0 < flen s -> 0 <= i -> (0 < delay s -> fn s = fn_at (flen s) i) ->
  exists s', Write (d1 ++ d2) s = Ret (Z.of_nat (List.length (d1 ++ d2)), None) s' /\
             (Write d1;;; Write d2) s = Ret (Z.of_nat (List.length d2), None) s'.
Proof.
  intros Hg HF Hi Hfn.
  rewrite (Write_at s (d1 ++ d2) i Hg HF Hi Hfn).
  eexists; split; [reflexivity|].
  rewrite (bind_Ret _ _ _ _ _ (Write_at s d1 i Hg HF Hi Hfn)).
  set (s1 := emit s _ _ _).
  assert (Hg1 : good s1) by (apply good_emit; exact Hg).
  rewrite (Write_at s1 d2 (i + Z.of_nat (List.length d1)) Hg1 HF ltac:(lia)).
  2:{ simpl. intros Hp. apply Z.ltb_lt in Hp. rewrite Hp. reflexivity. }
  destruct (frames_wire s1 s (flen s) (i + Z.of_nat (List.length d1)) d2 eq_refl) as [Eo Ed].
  destruct (frames_app s (flen s) d1 d2 i) as [Ao Ad].
  change (flen s1) with (flen s). change (delay s1) with (delay s).
  rewrite Eo, Ed, Ao, Ad. unfold s1. rewrite emit_emit. f_equal.
  destruct (0 <? delay s); [| reflexivity].
  rewrite length_app, Nat2Z.inj_add, Z.add_assoc. reflexivity.
Qed.

Lemma Write_split_witness :
  exists s', Write ([85; 170] ++ [240]) (t_open (mkConfig 0 2 1)) =
               Ret (Z.of_nat (List.length ([85; 170] ++ [240])), None) s' /\
             (Write [85; 170];;; Write [240]) (t_open (mkConfig 0 2 1)) =
               Ret (Z.of_nat (List.length [240]), None) s'.
Proof.
  exact (Write_split (t_open (mkConfig 0 2 1)) [85; 170] [240] 0
           ltac:(concrete) ltac:(concrete) ltac:(lia) ltac:(intros _; vm_compute; reflexivity)).
Defined.

Lemma emit_set_fn (t : Master) (x : Z) o d f : emit (set_fn x t) o d f = emit t o d f.
Proof. reflexivity. Qed.

Lemma delay_here_shift (s : Master) (F i j : Z) : 0 < F -> 0 < i -> 0 <= j -> j mod F = 0 ->
  delay_here s F (i + j) = delay_here s F i.
Proof.
  intros HF Hi Hj Hm. unfold delay_here.
  replace (0 <? i + j) with true by (symmetry; apply Z.ltb_lt; lia).
  replace (0 <? i) with true by (symmetry; apply Z.ltb_lt; lia).
  rewrite Z.add_mod, Hm, Z.add_0_r, Z.mod_mod by lia. reflexivity.
Qed.

Lemma frames_shift (s : Master) (F j : Z) (d : list Z) : 0 < F -> 0 <= j -> j mod F = 0 ->
  forall i, 0 < i ->
  frames_out s F (i + j) d = frames_out s F i d /\
  frames_dirs s F (i + j) d = frames_dirs s F i d.
Proof.
  intros HF Hj Hm. induction d as [|b d IH]; intros i Hi; [split; reflexivity|].
  cbn [frames_out frames_dirs]. unfold delay_block, delay_dir.
  rewrite delay_here_shift by assumption.
  replace (i + j + 1) with (i + 1 + j) by lia.
  destruct (IH (i + 1) ltac:(lia)) as [E1 E2]. rewrite E1, E2. split; reflexivity.
Qed.

(** At a frame boundary [j], the frames of a non-empty [d] are the delay
    block due there followed by the frames of [d] counted from 0. *)
Lemma frames_boundary (s : Master) (F j : Z) (d : list Z) : 0 < F -> 0 <= j -> j mod F = 0 ->
  d <> [] ->
  frames_out s F j d = delay_block s F j ++ frames_out s F 0 d /\
  frames_dirs s F j d = delay_dir s F j ++ frames_dirs s F 0 d.
Proof.
  intros HF Hj Hm Hd. destruct d as [|b d]; [contradiction|].
  cbn [frames_out frames_dirs].
  destruct (frames_shift s F j d HF Hj Hm 1 ltac:(lia)) as [E1 E2].
  rewrite Z.add_comm, E1, E2.
  assert (Z0 : delay_block s F 0 = [] /\ delay_dir s F 0 = [])
    by (unfold delay_block, delay_dir, delay_here; destruct (0 <? delay s); split; reflexivity).
  destruct Z0 as [-> ->]. rewrite Z.add_0_l. split; reflexivity.
Qed.

Lemma fn_at_boundary (F j n : Z) : 0 < F -> 0 <= j -> j mod F = 0 -> 0 < n ->
  fn_at F (j + n) = fn_at F n.
Proof.
  intros HF Hj Hm Hn. unfold fn_at.
  destruct (Z.eqb_spec (j + n) 0); [lia|]. destruct (Z.eqb_spec n 0); [lia|].
  replace (j + n - 1) with ((n - 1) + j) by lia.
  rewrite Z.add_mod, Hm, Z.add_0_r, Z.mod_mod by lia. reflexivity.
Qed.

(** [NoDelay] between frames.  When the bytes written so far end a frame
    ([i + len(d1)] a multiple of the frame length), [Write(d1)],
    [NoDelay()], [Write(d2)] gives the streams of [Write(d1 ++ d2)] minus
    the one delay block (and its directive) due before the first byte of
    [d2]; the frame position after both is the same. *)
Theorem NoDelay_boundary (s : Master) (d1 d2 : list Z) (i : Z) :
  good s -> 0 < flen s -> 0 <= i -> (0 < delay s -> fn s = fn_at (flen s) i) ->
  (i + Z.of_nat (List.length d1)) mod flen s = 0 -> d2 <> [] ->
  let j := i + Z.of_nat (List.length d1) in
  exists f1 f2,
    (Write d1;;; NoDelay;;; Write d2) s =
      Ret (Z.of_nat (List.length d2), None)
          (emit s (frames_out s (flen s) i d1 ++ frames_out s (flen s) 0 d2)
                  (frames_dirs s (flen s) i d1 ++ frames_dirs s (flen s) 0 d2) f1) /\
    Write (d1 ++ d2) s =
      Ret (Z.of_nat (List.length (d1 ++ d2)), None)
          (emit s (frames_out s (flen s) i d1 ++ delay_block s (flen s) j
                     ++ frames_out s (flen s) 0 d2)
                  (frames_dirs s (flen s) i d1 ++ delay_dir s (flen s) j
                     ++ frames_dirs s (flen s) 0 d2) f2) /\
    (0 < delay s -> f1 = f2).
Proof.
  intros Hg HF Hi Hfn Hm Hd2 j.
  assert (Hj : 0 <= j) by (unfold j; lia).
  destruct (frames_boundary s (flen s) j d2 HF Hj Hm Hd2) as [B1 B2].
  destruct (frames_app s (flen s) d1 d2 i) as [Ao Ad].
  rewrite (bind_Ret _ _ _ _ _ (Write_at s d1 i Hg HF Hi Hfn)).
  set (s1 := emit s _ _ _).
  unfold NoDelay, modify, bind at 1.
  assert (Hg1 : good (set_fn 0 s1)) by (apply good_emit; exact Hg).
  rewrite (Write_at (set_fn 0 s1) d2 0 Hg1 HF ltac:(lia) ltac:(reflexivity)).
  destruct (frames_wire (set_fn 0 s1) s (flen s) 0 d2 eq_refl) as [Eo Ed].
  change (flen (set_fn 0 s1)) with (flen s). change (delay (set_fn 0 s1)) with (delay s).
  rewrite Eo, Ed, emit_set_fn. unfold s1. rewrite emit_emit.
  rewrite (Write_at s (d1 ++ d2) i Hg HF Hi Hfn), Ao, Ad.
  fold j. rewrite B1, B2.
  do 2 eexists. split; [reflexivity|]. split; [reflexivity|].
  intros Hp. apply Z.ltb_lt in Hp. rewrite Hp.
  rewrite length_app, Nat2Z.inj_add, Z.add_assoc. fold j.
  rewrite Z.add_0_l, fn_at_boundary
    by (first [assumption | destruct d2; [contradiction | simpl; lia]]).
  reflexivity.
Qed.

Lemma NoDelay_boundary_witness :
  let j := 0 + Z.of_nat (List.length [85; 170]) in
  exists f1 f2,
    (Write [85; 170];;; NoDelay;;; Write [240]) (t_open (mkConfig 0 2 1)) =
      Ret (Z.of_nat (List.length [240]), None)
          (emit (t_open (mkConfig 0 2 1))
             (frames_out (t_open (mkConfig 0 2 1)) 2 0 [85; 170]
                ++ frames_out (t_open (mkConfig 0 2 1)) 2 0 [240])
             (frames_dirs (t_open (mkConfig 0 2 1)) 2 0 [85; 170]
                ++ frames_dirs (t_open (mkConfig 0 2 1)) 2 0 [240]) f1) /\
    Write ([85; 170] ++ [240]) (t_open (mkConfig 0 2 1)) =
      Ret (Z.of_nat (List.length ([85; 170] ++ [240])), None)
          (emit (t_open (mkConfig 0 2 1))
             (frames_out (t_open (mkConfig 0 2 1)) 2 0 [85; 170]
                ++ delay_block (t_open (mkConfig 0 2 1)) 2 j
                ++ frames_out (t_open (mkConfig 0 2 1)) 2 0 [240])
             (frames_dirs (t_open (mkConfig 0 2 1)) 2 0 [85; 170]
                ++ delay_dir (t_open (mkConfig 0 2 1)) 2 j
                ++ frames_dirs (t_open (mkConfig 0 2 1)) 2 0 [240]) f2) /\
    (0 < delay (t_open (mkConfig 0 2 1)) -> f1 = f2).
Proof.
  exact (NoDelay_boundary (t_open (mkConfig 0 2 1)) [85; 170] [240] 0
           ltac:(concrete) ltac:(concrete) ltac:(lia) ltac:(intros _; vm_compute; reflexivity)
           ltac:(concrete) ltac:(discriminate)).
Defined.

(** ** The directives account for every byte written *)

Lemma dir_bytes_app (a b : list Z) : dir_bytes (a ++ b) = dir_bytes a + dir_bytes b.
Proof. induction a as [|x a IH]; simpl; [reflexivity | rewrite IH; lia]. Qed.

Lemma dir_bytes_frames (s : Master) (F : Z) (d : list Z) : 0 <= delay s -> forall i,
  dir_bytes (frames_dirs s F i d) = Z.of_nat (List.length (frames_out s F i d)).
Proof.
  intros Hd. induction d as [|b d IH]; intros i; [reflexivity|].
  cbn [frames_dirs frames_out]. rewrite !dir_bytes_app, !length_app, !Nat2Z.inj_add, IH.
  rewrite encode_length. unfold delay_dir, delay_block.
  destruct (delay_here s F i); cbn [dir_bytes fold_right List.length];
    rewrite ?repeat_length; lia.
Qed.

(** In a transaction from an unlocked master whose driver never fails, the
    directives sent to the reader account exactly for the bytes handed to
    the driver: the absolute values of the new directives sum to the number
    of new bytes, so a reader that follows them stays in step with the
    driver's stream. *)
Theorem txn_accounting (s : Master) (data : list Z) :
  good s -> wmtx s = false -> flen s < 0 ->
  (Z.of_nat (List.length (pre s)) + 1 <= 128)%Z ->
  (Z.of_nat (List.length (post s)) + 1 <= 128)%Z ->
  exists s' out ds, txn data s = Ret None s' /\
    dout (drv s') = dout (drv s) ++ out /\ tq (tord s') = tq (tord s) ++ ds /\
    dir_bytes ds = Z.of_nat (List.length out).
Proof.
  intros Hg Hw Hf Hp Hq.
  destruct (txn_ok s data Hg Hw Hf Hp Hq) as (s' & E & _ & _ & Eo & Ed).
  do 3 eexists. split; [exact E|]. split; [exact Eo|]. split; [exact Ed|].
  pose proof Hg as (_ & _ & Hd).
  rewrite !dir_bytes_app, !length_app, !Nat2Z.inj_add, dir_bytes_frames by lia.
  destruct (cpha1 s); cbn [dir_bytes fold_right List.length]; rewrite ?length_app;
    cbn [List.length]; lia.
Qed.

Lemma txn_accounting_witness :
  exists s' out ds, txn [85; 170; 240] (t_cfg (mkConfig 0 1 2)) = Ret None s' /\
    dout (drv s') = dout (drv (t_cfg (mkConfig 0 1 2))) ++ out /\
    tq (tord s') = tq (tord (t_cfg (mkConfig 0 1 2))) ++ ds /\
    dir_bytes ds = Z.of_nat (List.length out).
Proof.
  exact (txn_accounting (t_cfg (mkConfig 0 1 2)) [85; 170; 240]
           ltac:(concrete) ltac:(concrete) ltac:(concrete) ltac:(concrete) ltac:(concrete)).
Defined.

(** ** The size limits of [Begin] and [End] *)

Lemma tordFlush_range (n : Z) (s : Master) : n < -128 ->
  (chan_full (tord s) = false \/ dfail (drv s) <> Some O) ->
  tordFlush n s = Panic "n>127 || n<-128" s.
Proof.
  intros Hn Hf. unfold tordFlush. rewrite (bind_Ret get _ s s s eq_refl).
  assert (E0 : (if chan_full (tord s) then drv_flush else ret None) s = Ret None s).
  { destruct (chan_full (tord s)); [|reflexivity].
    destruct Hf as [Hf|Hf]; [discriminate|].
    unfold drv_flush. destruct (dfail (drv s)) as [[|k]|]; [congruence|reflexivity|reflexivity]. }
  rewrite (bind_Ret _ _ s None s E0).
  replace ((127 <? n) || (n <? -128)) with true
    by (symmetry; apply orb_true_iff; right; apply Z.ltb_lt; lia).
  reflexivity.
Qed.

(** spi.go's [SetPrePost] accepts slices of any length; the limit is
    [tordFlush]'s int8 range.  [Begin] succeeds exactly when
    [len(pre)] plus the CPHA1 idle byte is at most 128, and [End] exactly
    when [len(post)] plus the CPHA0 idle byte is; otherwise the call panics
    before writing anything, with the mutex still held. *)
Theorem Begin_End_range (s : Master) :
  good s ->
  let nb := Z.of_nat (List.length (pre s)) + (if cpha1 s then 1 else 0) in
  let ne := Z.of_nat (List.length (post s)) + (if cpha1 s then 0 else 1) in
  (wmtx s = false -> nb <= 128 -> ret_of (Begin s) = Some None) /\
  (wmtx s = false -> 128 < nb ->
     exists s', Begin s = Panic "n>127 || n<-128" s' /\ wmtx s' = true /\
                dout (drv s') = dout (drv s) /\ tq (tord s') = tq (tord s)) /\
  (wmtx s = true -> ne <= 128 -> ret_of (End s) = Some None) /\
  (wmtx s = true -> 128 < ne ->
     exists s', End s = Panic "n>127 || n<-128" s' /\ wmtx s' = true /\
                dout (drv s') = dout (drv s) /\ tq (tord s') = tq (tord s)).
Proof.
  intros (Hd & Hc & _) nb ne. unfold nb, ne.
  destruct s as [[dd df] [q cl tf] we wm f pr po sc mo mi ba ci cf c1 ls fl de];
    simpl in *; subst.
  refine (conj _ (conj _ (conj _ _))); intros Hw Hn; subst wm.
  - unfold Begin, lock, modify, get, bind, ret. simpl.
    destruct c1; rewrite tordFlush_ok by (first [tf_side | idtac]; simpl; try reflexivity; lia);
      destruct pr; reflexivity.
  - unfold Begin, lock, modify, get, bind, ret. simpl.
    destruct c1; rewrite tordFlush_range by (first [tf_side | lia]);
      eexists; repeat split; reflexivity.
  - unfold End, modify, get, bind, ret. simpl.
    destruct c1; rewrite tordFlush_ok by (first [tf_side | idtac]; simpl; try reflexivity; lia);
      destruct po; reflexivity.
  - unfold End, modify, get, bind, ret. simpl.
    destruct c1; rewrite tordFlush_range by (first [tf_side | lia]);
      eexists; repeat split; reflexivity.
Qed.

Lemma Begin_End_range_witness :
  let s := final (SetPrePost (repeat 128 128) [128] (t_cfg (mkConfig CPHA1 1 0))) in
  let nb := Z.of_nat (List.length (pre s)) + (if cpha1 s then 1 else 0) in
  let ne := Z.of_nat (List.length (post s)) + (if cpha1 s then 0 else 1) in
  (wmtx s = false -> nb <= 128 -> ret_of (Begin s) = Some None) /\
  (wmtx s = false -> 128 < nb ->
     exists s', Begin s = Panic "n>127 || n<-128" s' /\ wmtx s' = true /\
                dout (drv s') = dout (drv s) /\ tq (tord s') = tq (tord s)) /\
  (wmtx s = true -> ne <= 128 -> ret_of (End s) = Some None) /\
  (wmtx s = true -> 128 < ne ->
     exists s', End s = Panic "n>127 || n<-128" s' /\ wmtx s' = true /\
                dout (drv s') = dout (drv s) /\ tq (tord s') = tq (tord s)).
Proof.
  exact (Begin_End_range (final (SetPrePost (repeat 128 128) [128] (t_cfg (mkConfig CPHA1 1 0))))
           ltac:(concrete)).
Defined.

(** ** Mode.String *)

(** [Mode.String] names the three bits [Configure] reads: the bit order
    letter ([M] or [L]), then the CPOL and the CPHA bit, for the eight modes
    in [[0, 8)]; every other value is ["unknown"], although [Configure]
    accepts it and treats it as its three low bits. *)
Theorem Mode_String_spec (m : Z) :
  (0 <= m < 8 ->
   Mode_String m =
     String.append (if Z.land m LSBF =? 0 then "M" else "L")
       (String.append (if Z.land m CPOL1 =? 0 then "0" else "1")
          (if Z.land m CPHA1 =? 0 then "0" else "1"))) /\
  (~ (0 <= m < 8) -> Mode_String m = "unknown"%string) /\
  (forall (F D : Z) (s : Master),
     Configure (mkConfig m F D) s = Configure (mkConfig (Z.land m 7) F D) s).
Proof.
  refine (conj _ (conj _ _)).
  - intros Hm.
    assert (m = 0 \/ m = 1 \/ m = 2 \/ m = 3 \/ m = 4 \/ m = 5 \/ m = 6 \/ m = 7)
      as H by lia.
    repeat destruct H as [-> | H]; try (subst m); reflexivity.
  - intros Hm. unfold Mode_String.
    repeat match goal with
           | |- context [m =? ?k] =>
               destruct (Z.eqb_spec m k) as [E|_]; [exfalso; vm_compute in E; lia|]
           end.
    reflexivity.
  - intros F D s. unfold Configure. cbn [Mode Delay FrameLen].
    assert (E : forall k, k = 1 \/ k = 2 \/ k = 4 -> Z.land (Z.land m 7) k = Z.land m k).
    { intros k Hk. rewrite <- Z.land_assoc.
      destruct Hk as [-> | [-> | ->]]; reflexivity. }
    unfold CPHA1, CPOL1, LSBF.
    rewrite (E 4), (E 2), (E 1) by lia. reflexivity.
Qed.

Lemma Mode_String_spec_witness :
  Mode_String 5 = "L01"%string /\ Mode_String 9 = "unknown"%string /\
  Configure (mkConfig 13 1 0) t_ma = Configure (mkConfig 5 1 0) t_ma.
Proof.
  refine (conj _ (conj _ _)).
  - rewrite (proj1 (Mode_String_spec 5)) by lia. reflexivity.
  - apply (proj1 (proj2 (Mode_String_spec 9))). lia.
  - exact (proj2 (proj2 (Mode_String_spec 13)) 1 0 t_ma).
Defined.

(** ** [Write] on a failing driver *)

Lemma enc_loop_length (s : Master) (mask : Z) (k : nat) (u : Z) :
  List.length (enc_loop s mask k u) = (2 * k)%nat.
Proof.
  revert u. induction k as [|k IH]; intros u; [reflexivity|].
  cbn [enc_loop List.length]. rewrite IH. lia.
Qed.

Lemma writeByte_nodelay (s : Master) (b mask : Z) (k : nat) :
  delay s = 0 -> tst (tord s) = Open -> dfail (drv s) = Some k ->
  writeByte b mask s =
  match k with
  | O => Ret (Some ErrDriver)
             (set_tord (mkCoord (tq (tord s) ++
                                 (if tfull (tord s) (length (tq (tord s))) then [] else [16]))
                                Closed (tfull (tord s)))
                (set_werr (Some ErrDriver) s))
  | S k' => Ret None (set_drv (mkDriver (dout (drv s) ++ enc_loop s mask 8 b) (Some k'))
                       (set_tord (mkCoord (tq (tord s) ++ [16]) Open (tfull (tord s))) s))
  end.
Proof.
  intros Hd Hc Hf.
  destruct s as [[dd df] [q cl tf] we wm f pr po sc mo mi ba ci cf c1 ls fl de];
    cbn in Hd, Hc, Hf |- *; subst.
  unfold writeByte, frame_delay, tordFlush, chan_full, drv_flush, drv_write, send,
    werror, close, modify, get, bind, ret, is_none.
  cbn. rewrite ?enc_loop_length. cbn.
  destruct k as [|k']; destruct (tf (length q)) eqn:Et; cbn; rewrite ?Et, ?app_nil_r; reflexivity.
Qed.

Lemma write_loop_nodelay (mask : Z) (data : list Z) : forall (s : Master) (k : nat) (idx : Z),
  delay s = 0 -> tst (tord s) = Open -> dfail (drv s) = Some k ->
  ((k < List.length data)%nat ->
   exists s', write_loop mask idx data s = Ret (Some (idx + Z.of_nat k, ErrDriver)) s' /\
     werr s' = Some ErrDriver /\ tst (tord s') = Closed /\
     dout (drv s') = dout (drv s) ++ flat_map (fun b => enc_loop s mask 8 b) (firstn k data) /\
     tq (tord s') = tq (tord s) ++ repeat 16 k ++
                    (if tfull (tord s) (length (tq (tord s)) + k) then [] else [16])) /\
  ((List.length data <= k)%nat ->
   exists s', write_loop mask idx data s = Ret None s' /\
     werr s' = werr s /\ tst (tord s') = Open /\
     dout (drv s') = dout (drv s) ++ flat_map (fun b => enc_loop s mask 8 b) data /\
     tq (tord s') = tq (tord s) ++ repeat 16 (List.length data) /\
     tfull (tord s') = tfull (tord s) /\
     dfail (drv s') = Some (k - List.length data)%nat).
Proof.
  induction data as [|b d IH]; intros s k idx Hd Hc Hf.
  - split; [cbn; lia|]. intros _. exists s. cbn [write_loop flat_map repeat List.length].
    rewrite !app_nil_r, Nat.sub_0_r. repeat split; assumption.
  - cbn [write_loop]. pose proof (writeByte_nodelay s b mask k Hd Hc Hf) as EW.
    destruct k as [|k]; repeat rewrite (bind_Ret _ _ _ _ _ EW).
    + split; [|cbn; lia]. intros _. eexists. split; [unfold ret; rewrite Z.add_0_r; reflexivity|].
      cbn. rewrite app_nil_r, Nat.add_0_r. repeat split; reflexivity.
    + set (s1 := set_drv _ _).
      assert (Ew : forall x, enc_loop s1 mask 8 x = enc_loop s mask 8 x)
        by (intros x; apply enc_loop_wire; reflexivity).
      destruct (IH s1 k (idx + 1) Hd eq_refl eq_refl) as [IH1 IH2].
      split.
      * intros Hk. destruct (IH1 ltac:(cbn in Hk; lia)) as (s' & E & H1 & H2 & H3 & H4).
        exists s'. rewrite E, <- Z.add_assoc, Nat2Z.inj_succ, <- Z.add_1_l.
        split; [reflexivity|]. split; [exact H1|]. split; [exact H2|].
        rewrite H3, H4, (flat_map_ext _ _ Ew). cbn. rewrite length_app. cbn [length].
        replace (length (tq (tord s)) + 1 + k)%nat with (length (tq (tord s)) + S k)%nat by lia.
        rewrite <- !app_assoc. split; reflexivity.
      * intros Hk. destruct (IH2 ltac:(cbn in Hk; lia)) as (s' & E & H1 & H2 & H3 & H4 & H6 & H5).
        exists s'. rewrite E. split; [reflexivity|]. split; [exact H1|]. split; [exact H2|].
        rewrite H3, H4, H5, H6, (flat_map_ext _ _ Ew). cbn. rewrite <- !app_assoc.
        split; [reflexivity | split; [reflexivity | split; reflexivity]].
Qed.

(** [Write] on a driver whose [k]-th [Write] call fails (no delay
    configured, so one driver call per byte): if [k < len(data)], [Write]
    returns [k], the index of the byte that failed, with the driver's
    error; the [k] bytes before it are written in full, the error is latched
    and the coordinator closed.  The data directive of the failed byte has
    been sent unless the channel was full at that point: then
    [tordFlush]'s [Flush] of the failed driver returns the error before the
    send.  Otherwise every byte is written, each with its directive. *)
Theorem Write_driver_error (s : Master) (data : list Z) (k : nat) :
  0 <= flen s -> delay s = 0 -> tst (tord s) = Open -> dfail (drv s) = Some k ->
  ((k < List.length data)%nat ->
   exists s', Write data s = Ret (Z.of_nat k, Some ErrDriver) s' /\
     werr s' = Some ErrDriver /\ tst (tord s') = Closed /\
     dout (drv s') = dout (drv s) ++ flat_map (encode s) (firstn k data) /\
     tq (tord s') = tq (tord s) ++ repeat 16 k ++
                    (if tfull (tord s) (length (tq (tord s)) + k) then [] else [16])) /\
  ((List.length data <= k)%nat ->
   exists s', Write data s = Ret (Z.of_nat (List.length data), None) s' /\
     werr s' = werr s /\ tst (tord s') = Open /\
     dout (drv s') = dout (drv s) ++ flat_map (encode s) data /\
     tq (tord s') = tq (tord s) ++ repeat 16 (List.length data)).
Proof.
  intros HF Hd Hc Hf.
  destruct (write_loop_nodelay (first_mask s) data s k 0 Hd Hc Hf) as [L1 L2].
  split.
  - intros Hk. destruct (L1 Hk) as (s' & E & H1 & H2 & H3 & H4).
    exists s'. unfold Write, get, bind. destruct (Z.ltb_spec (flen s) 0); [lia|].
    rewrite E. split; [reflexivity|]. repeat split; assumption.
  - intros Hk. destruct (L2 Hk) as (s' & E & H1 & H2 & H3 & H4 & _).
    exists s'. unfold Write, get, bind. destruct (Z.ltb_spec (flen s) 0); [lia|].
    rewrite E. split; [reflexivity|]. repeat split; assumption.
Qed.

Lemma Write_driver_error_witness :
  (exists s', Write [85; 170; 240] (final (Begin (t_fail 3))) = Ret (Z.of_nat 2, Some ErrDriver) s' /\
     tq (tord s') = tq (tord (final (Begin (t_fail 3)))) ++ [16; 16; 16]) /\
  (exists s', Write [85; 170; 240] (stalled (final (Begin (t_fail 3)))) =
                Ret (Z.of_nat 2, Some ErrDriver) s' /\
     tq (tord s') = tq (tord (final (Begin (t_fail 3)))) ++ [16; 16]).
Proof.
  split.
  - destruct (proj1 (Write_driver_error (final (Begin (t_fail 3))) [85; 170; 240] 2
             ltac:(concrete) ltac:(concrete) ltac:(concrete) ltac:(concrete)) ltac:(cbn; lia))
      as (s' & E & _ & _ & _ & Q).
    exists s'. split; [exact E | rewrite Q; reflexivity].
  - destruct (proj1 (Write_driver_error (stalled (final (Begin (t_fail 3)))) [85; 170; 240] 2
             ltac:(concrete) ltac:(concrete) ltac:(concrete) ltac:(concrete)) ltac:(cbn; lia))
      as (s' & E & _ & _ & _ & Q).
    exists s'. split; [exact E | rewrite Q; reflexivity].
Defined.

(** ** After a write error: the closed coordinator *)

Lemma tordFlush_closed_send (n : Z) (s : Master) :
  -128 <= n <= 127 -> tst (tord s) = Closed -> flush_fails s = false ->
  tordFlush n s = Panic "send on closed channel" s.
Proof.
  intros Hn Hc Hf.
  assert (Er : (127 <? n) || (n <? -128) = false)
    by (apply orb_false_iff; split; apply Z.ltb_ge; lia).
  unfold flush_fails, chan_full in Hf. rewrite Hc in Hf.
  unfold tordFlush, chan_full. rewrite (bind_Ret get _ s s s eq_refl). rewrite Hc.
  destruct (tfull (tord s) (length (tq (tord s)))); cbn [andb] in Hf.
  - unfold drv_flush, bind.
    destruct (dfail (drv s)) as [[|k]|]; [discriminate| |];
      rewrite Er; unfold send; rewrite Hc; reflexivity.
  - unfold ret, bind. rewrite Er. unfold send. rewrite Hc. reflexivity.
Qed.

Lemma tordFlush_flush_fails (n : Z) (s : Master) :
  flush_fails s = true -> tordFlush n s = Ret (Some ErrDriver) s.
Proof.
  intros Hf. unfold flush_fails in Hf. apply andb_true_iff in Hf as [Hf Hd].
  unfold tordFlush. rewrite (bind_Ret get _ s s s eq_refl). rewrite Hf.
  unfold drv_flush, bind. destruct (dfail (drv s)) as [[|k]|]; [reflexivity|discriminate|discriminate].
Qed.

(** Once an error has closed the coordinator (spi.go's [werror]), the
    master cannot finish the transaction, with the mutex still held and
    nothing more written: [End] and a non-empty [Write] panic on the send of
    their first directive, or, when the channel is full and the failed
    driver's [Flush] returns its error first, panic in [werror] closing the
    coordinator a second time; [Flush] on the failed driver panics the
    latter way. *)
Theorem closed_coordinator_panics (s : Master) :
  tst (tord s) = Closed ->
  (Z.of_nat (List.length (post s)) + (if cpha1 s then 0 else 1) <= 128 ->
   exists s', End s = Panic (if flush_fails s then "close of closed channel"
                             else "send on closed channel") s' /\
              wmtx s' = wmtx s /\ dout (drv s') = dout (drv s)) /\
  (0 <= flen s -> 0 <= delay s <= 8 -> forall data, data <> [] ->
   exists s', Write data s = Panic (if flush_fails s then "close of closed channel"
                                   else "send on closed channel") s' /\
              dout (drv s') = dout (drv s)) /\
  (dfail (drv s) = Some O -> exists s', Flush s = Panic "close of closed channel" s').
Proof.
  intros Hc. refine (conj _ (conj _ _)).
  - intros Hn. destruct (flush_fails s) eqn:Ef.
    + unfold End, modify, get, bind at 1 2 3.
      rewrite (tordFlush_flush_fails _ (set_flen (- flen s) s) Ef).
      cbv beta iota. cbn [is_none]. rewrite !andb_false_r. unfold bind, ret, werror, modify, close.
      cbn. rewrite andb_false_r. cbn. rewrite Hc. eexists; repeat split.
    + unfold End, modify, get, bind at 1 2 3.
      rewrite tordFlush_closed_send by (exact Hc || exact Ef || (simpl; destruct (cpha1 s); lia)).
      eexists; repeat split.
  - intros HF Hd data Hne. destruct data as [|b d]; [contradiction|].
    unfold Write, get, bind at 1. destruct (Z.ltb_spec (flen s) 0); [lia|].
    cbn [write_loop]. unfold bind at 1 2, writeByte, bind at 1, frame_delay, get, bind at 1.
    destruct (flush_fails s) eqn:Ef; destruct (Z.ltb_spec 0 (delay s)).
    + destruct (fn s =? flen s).
      * unfold bind at 1. rewrite (tordFlush_flush_fails _ s Ef).
        destruct (Z.to_nat (delay s)); unfold bind, ret, werror, modify, close; cbn;
          rewrite Hc; eexists; split; reflexivity.
      * unfold incr_fn, modify, bind, ret, get.
        rewrite (tordFlush_flush_fails _ (set_fn (fn s + 1) s) Ef).
        unfold werror, modify, close. cbn. rewrite Hc. eexists; split; reflexivity.
    + unfold ret, get, bind. rewrite (tordFlush_flush_fails _ s Ef).
      unfold werror, modify, close. cbn. rewrite Hc. eexists; split; reflexivity.
    + destruct (fn s =? flen s).
      * unfold bind at 1. rewrite tordFlush_closed_send by (exact Hc || exact Ef || (simpl; lia)).
        eexists; split; reflexivity.
      * unfold incr_fn, modify, bind, ret, get.
        rewrite tordFlush_closed_send
          by (exact Hc || exact Ef || (rewrite enc_loop_length; simpl; lia)).
        eexists; split; reflexivity.
    + unfold ret, get, bind.
      rewrite tordFlush_closed_send
        by (exact Hc || exact Ef || (rewrite enc_loop_length; simpl; lia)).
      eexists; split; reflexivity.
  - intros Hf. unfold Flush, drv_flush, bind. rewrite Hf.
    unfold werror, modify, bind, close. cbn [set_werr tord]. rewrite Hc.
    eexists; reflexivity.
Qed.

Lemma closed_coordinator_panics_witness :
  (exists s', End (final (Write [85] (final (Begin (t_fail 1))))) =
                Panic "send on closed channel" s' /\
              wmtx s' = true /\ dout (drv s') = dout (drv (final (Begin (t_fail 1))))) /\
  (exists s', Write [170] (stalled (final (Write [85] (final (Begin (t_fail 1)))))) =
                Panic "close of closed channel" s' /\
              dout (drv s') = dout (drv (final (Begin (t_fail 1))))) /\
  (exists s', Flush (final (Write [85] (final (Begin (t_fail 1))))) =
                Panic "close of closed channel" s').
Proof.
  destruct (closed_coordinator_panics (final (Write [85] (final (Begin (t_fail 1)))))
              ltac:(concrete)) as (H1 & _ & H3).
  destruct (closed_coordinator_panics (stalled (final (Write [85] (final (Begin (t_fail 1))))))
              ltac:(concrete)) as (_ & H2 & _).
  refine (conj _ (conj _ (H3 ltac:(concrete)))).
  - destruct (H1 ltac:(concrete)) as (s' & E & W & D). exists s'.
    split; [exact E|]. split; [rewrite W; reflexivity | rewrite D; reflexivity].
  - destruct (H2 ltac:(concrete) ltac:(concrete) [170] ltac:(discriminate)) as (s' & E & D).
    exists s'. split; [exact E | rewrite D; reflexivity].
Defined.

(** ** debug.go *)

Lemma Debug_forall_byte (P : Z -> Prop) :
  (forall n : nat, (n < 256)%nat -> P (Z.of_nat n)) -> forall b, 0 <= b < 256 -> P b.
Proof.
  intros H b Hb. rewrite <- (Z2Nat.id b) by lia. apply H. lia.
Qed.

Lemma Debug_line_check :
  forallb (fun n => let b := Z.of_nat n in
    if list_eq_dec Z.eq_dec (Debug.line b)
         (concat (map (fun i => [if Z.testbit b (7 - Z.of_nat i) then 49 else 48; 9]) (seq 0 8))
          ++ [Debug.hex_char (b / 16); Debug.hex_char (b mod 16); 10])
    then true else false) (seq 0 256) = true.
Proof. vm_compute. reflexivity. Qed.

Lemma Debug_reuse_check :
  forallb (fun n1 => forallb (fun n2 =>
    if list_eq_dec Z.eq_dec (Debug.line_of (Debug.line (Z.of_nat n1)) (Z.of_nat n2))
         (Debug.line (Z.of_nat n2))
    then true else false) (seq 0 256)) (seq 0 256) = true.
Proof. vm_compute. reflexivity. Qed.

Lemma Debug_line_of_line b1 b2 :
  0 <= b1 < 256 -> 0 <= b2 < 256 -> Debug.line_of (Debug.line b1) b2 = Debug.line b2.
Proof.
  intros H1. revert b2. pattern b1. revert b1 H1. apply Debug_forall_byte. intros n1 Hn1.
  apply Debug_forall_byte. intros n2 Hn2.
  pose proof Debug_reuse_check as E. rewrite forallb_forall in E.
  specialize (E n1 ltac:(apply in_seq; lia)). rewrite forallb_forall in E.
  specialize (E n2 ltac:(apply in_seq; lia)).
  destruct (list_eq_dec _ _ _); [assumption | discriminate].
Qed.

Definition Debug_expected (n : Z) (data : list Z) (w : Driver)
  : option (Z * error) * Driver :=
  match dfail w with
  | None => (None, mkDriver (dout w ++ flat_map Debug.line data) None)
  | Some k =>
      if Nat.ltb k (List.length data)
      then (Some (n + Z.of_nat k, ErrDriver),
            mkDriver (dout w ++ flat_map Debug.line (firstn k data)) (Some O))
      else (None, mkDriver (dout w ++ flat_map Debug.line data) (Some (k - List.length data)%nat))
  end.

Lemma Debug_write_loop data : forall out n w,
  (forall b, 0 <= b < 256 -> Debug.line_of out b = Debug.line b) ->
  Forall (fun b => 0 <= b < 256) data ->
  Debug.write_loop out n data w = Debug_expected n data w.
Proof.
  induction data as [|b d IH]; intros out n w Hout Hd.
  - destruct w as [o [[|k]|]]; cbn; rewrite ?app_nil_r, ?Nat.sub_0_r; reflexivity.
  - inversion Hd as [|? ? Hb Hd']; subst. cbn [Debug.write_loop].
    rewrite (Hout b Hb).
    destruct w as [o [[|k]|]]; cbn [Debug.w_write dfail dout].
    + unfold Debug_expected; cbn. rewrite Z.add_0_r, app_nil_r. reflexivity.
    + rewrite IH by (first [assumption | intros; apply Debug_line_of_line; assumption]).
      unfold Debug_expected; cbn [dfail dout List.length].
      destruct (Nat.ltb_spec k (List.length d)), (Nat.ltb_spec (S k) (S (List.length d))); try lia.
      * cbn [firstn flat_map]. rewrite <- app_assoc. do 3 f_equal. lia.
      * cbn [flat_map]. rewrite <- app_assoc. reflexivity.
    + rewrite IH by (first [assumption | intros; apply Debug_line_of_line; assumption]).
      unfold Debug_expected; cbn [dfail dout flat_map]. rewrite <- app_assoc. reflexivity.
Qed.

(** Extra: every line [Debug.Write] prints for a byte [b] is its eight bits,
    most significant first, each followed by a tab, then its two lower-case
    hexadecimal digits (a leading 0 for b < 16) and a newline. *)
Theorem Debug_line_format b :
  0 <= b < 256 ->
  Debug.line b =
  concat (map (fun i => [if Z.testbit b (7 - Z.of_nat i) then 49 else 48; 9]) (seq 0 8))
  ++ [Debug.hex_char (b / 16); Debug.hex_char (b mod 16); 10].
Proof.
  intros Hb. pattern b. revert b Hb. apply Debug_forall_byte. intros n Hn.
  pose proof Debug_line_check as E. rewrite forallb_forall in E.
  specialize (E n ltac:(apply in_seq; lia)). cbv zeta in E.
  destruct (list_eq_dec _ _ _); [assumption | discriminate].
Qed.

Lemma Debug_line_format_witness :
  Debug.line 10 =
  concat (map (fun i => [if Z.testbit 10 (7 - Z.of_nat i) then 49 else 48; 9]) (seq 0 8))
  ++ [Debug.hex_char (10 / 16); Debug.hex_char (10 mod 16); 10].
Proof. apply Debug_line_format. lia. Defined.

(** Extra: [Debug.Write] prints one line per byte, the line of each byte not
    depending on the previous ones; it returns [len(data)] when the writer
    accepts all of them, and otherwise the index of the byte whose line the
    writer refused with the writer's error, after the lines of the bytes
    before it. *)
Theorem Debug_Write_spec data w :
  Forall (fun b => 0 <= b < 256) data ->
  Debug.Write data w =
  match dfail w with
  | Some k =>
      if Nat.ltb k (List.length data)
      then ((Z.of_nat k, Some ErrDriver),
            mkDriver (dout w ++ flat_map Debug.line (firstn k data)) (Some O))
      else ((Z.of_nat (List.length data), None),
            mkDriver (dout w ++ flat_map Debug.line data) (Some (k - List.length data)%nat))
  | None => ((Z.of_nat (List.length data), None), mkDriver (dout w ++ flat_map Debug.line data) None)
  end.
Proof.
  intros Hd. unfold Debug.Write.
  rewrite Debug_write_loop by (first [assumption | intros; reflexivity]).
  unfold Debug_expected. destruct (dfail w) as [k|]; [|reflexivity].
  destruct (Nat.ltb k (List.length data)); reflexivity.
Qed.

Lemma Debug_Write_spec_witness :
  Debug.Write [1; 171; 255] (mkDriver [] (Some 2%nat)) =
  ((2, Some ErrDriver), mkDriver (flat_map Debug.line [1; 171]) (Some O)).
Proof.
  rewrite (Debug_Write_spec [1; 171; 255] (mkDriver [] (Some 2%nat)))
    by (repeat apply Forall_cons; try apply Forall_nil; lia).
  reflexivity.
Defined.

(** ** The older [SPI] type *)

Lemma old_w_write_sim (p : list Z) (s : OldSPI.SPI) (m : Master) :
  drv m = OldSPI.w s ->
  exists e d, OldSPI.w_write p s = Ret e (OldSPI.set_w d s) /\
              drv_write p m = Ret e (set_drv d m).
Proof.
  intros H. unfold OldSPI.w_write, drv_write. rewrite H.
  destruct s as [[o [[|k]|]] ? ? ? ? ? ? ? ? ? ?]; cbn.
  - exists (Some ErrDriver), (mkDriver o (Some O)). split; [reflexivity|].
    destruct m as [? ? ? ? ? ? ? ? ? ? ? ? ? ? ? ? ?]; cbn in H; subst. reflexivity.
  - eexists None, _. split; reflexivity.
  - eexists None, _. split; reflexivity.
Qed.

Lemma old_idle_sim (k : nat) (p : list Z) : forall (s : OldSPI.SPI) (m : Master),
  drv m = OldSPI.w s ->
  exists e d, OldSPI.idle_loop k p s = Ret e (OldSPI.set_w d s) /\
              idle_loop k p None m = Ret e (set_drv d m).
Proof.
  induction k as [|k IH]; intros s m H.
  - exists None, (OldSPI.w s). cbn. unfold ret.
    destruct s, m; cbn in *; subst. split; reflexivity.
  - cbn [OldSPI.idle_loop idle_loop].
    destruct (old_w_write_sim p s m H) as (e & d & E1 & E2).
    unfold bind. rewrite E1, E2. destruct e as [e|].
    + exists (Some e), d. split; [reflexivity|]. destruct k; reflexivity.
    + destruct (IH (OldSPI.set_w d s) (set_drv d m) eq_refl) as (e' & d' & F1 & F2).
      exists e', d'. rewrite F1, F2. split; reflexivity.
Qed.

Lemma old_frame_sim (s : OldSPI.SPI) (m : Master) :
  sim s m -> 0 <= OldSPI.delay s <= 64 ->
  exists e s' m', OldSPI.frame s = Ret e s' /\ frame_delay m = Ret e m' /\
    drv m' = OldSPI.w s' /\ fn m' = OldSPI.bif s' /\ OldSPI.delay s' = OldSPI.delay s /\
    (e = None -> sim s' m').
Proof.
  intros Hs Hd.
  destruct s as [w0 bif0 sclk0 mosi0 miso0 cidle0 cfirst0 cpha0 lsbf0 flen0 delay0].
  destruct m as [d1 [q1 c1 tf1] werr1 wmtx1 fn1 pre1 post1 sclk1 mosi1 miso1 base1
                 cidle1 cfirst1 cpha1' lsbf1 flen1 delay1].
  unfold sim in Hs; cbn in Hs, Hd.
  destruct Hs as (-> & -> & -> & -> & -> & -> & -> & -> & -> & -> & -> & ->).
  unfold OldSPI.frame, frame_delay, OldSPI.get, get, bind; cbn [OldSPI.delay delay].
  destruct (Z.eqb_spec delay0 0) as [->|Hd0].
  - do 3 eexists. split; [reflexivity|]. split; [reflexivity|].
    split; [reflexivity|]. split; [reflexivity|]. split; [reflexivity|]. intros _. repeat split.
  - assert (Hp : (0 <? delay0) = true) by (apply Z.ltb_lt; lia). rewrite Hp. cbn [negb].
    cbn [OldSPI.bif OldSPI.flen fn flen].
    destruct (bif0 =? flen0).
    + rewrite tordFlush_ok by (cbn; first [lia | reflexivity | left; reflexivity]).
      cbn [base cidle OldSPI.cidle length Z.of_nat]. rewrite Z.lor_0_l.
      set (m0 := set_tord _ _).
      destruct (old_idle_sim (Z.to_nat delay0) [cidle0; cidle0]
                  (OldSPI.mkSPI w0 bif0 sclk0 mosi0 miso0 cidle0 cfirst0 cpha0 lsbf0 flen0 delay0)
                  m0 eq_refl) as (e & d & E1 & E2).
      rewrite E1, E2. destruct e as [e|].
      * do 3 eexists. split; [reflexivity|]. split; [reflexivity|].
        split; [reflexivity|]. split; [reflexivity|]. split; [reflexivity|]. discriminate.
      * do 3 eexists. split; [reflexivity|]. split; [reflexivity|].
        split; [reflexivity|]. split; [reflexivity|]. split; [reflexivity|]. intros _. repeat split.
    + do 3 eexists. split; [reflexivity|]. split; [reflexivity|].
      split; [reflexivity|]. split; [reflexivity|]. split; [reflexivity|]. intros _. repeat split.
Qed.

Lemma old_obuf_length (s : OldSPI.SPI) (mask : Z) (k : nat) (u : Z) :
  List.length (OldSPI.obuf_loop s mask k u) = (2 * k)%nat.
Proof.
  revert u. induction k as [|k IH]; intros u; [reflexivity|].
  cbn [OldSPI.obuf_loop List.length]. rewrite IH. lia.
Qed.

Lemma old_obuf_enc (s : OldSPI.SPI) (m : Master) (mask : Z) (k : nat) (u : Z) :
  sim s m -> enc_loop m mask k u = OldSPI.obuf_loop s mask k u.
Proof.
  intros (_ & _ & Hb & Hs & Hm & _ & Hcf & Hl & _).
  revert u. induction k as [|k IH]; intros u; [reflexivity|].
  cbn [enc_loop OldSPI.obuf_loop]. rewrite Hb, Hs, Hm, Hcf, Hl, Z.lor_0_l, IH.
  destruct (negb _); reflexivity.
Qed.

Lemma sim_write (s : OldSPI.SPI) (m : Master) (d : Driver) (q : list Z) :
  sim s m -> sim (OldSPI.set_w d s) (set_drv d (set_tord (mkCoord q Open (tfull (tord m))) m)).
Proof.
  intros (_ & H1 & H2 & H3 & H4 & H5 & H6 & H7 & H8 & H9 & _ & H10).
  unfold sim; cbn. repeat split; assumption.
Qed.

Lemma old_write_loop_sim (mask : Z) (data : list Z) : forall (n : Z) (s : OldSPI.SPI) (m : Master),
  sim s m -> 0 <= OldSPI.delay s <= 64 ->
  exists r s' m', OldSPI.write_loop mask n data s = Ret r s' /\ write_loop mask n data m = Ret r m' /\ 
    drv m' = OldSPI.w s' /\ fn m' = OldSPI.bif s'.
Proof.
  induction data as [|b d IH]; intros n s m Hs Hd.
  - exists None, s, m. split; [reflexivity|]. split; [reflexivity|].
    destruct Hs as (H1 & H2 & _). split; assumption.
  - cbn [OldSPI.write_loop write_loop]. unfold writeByte. rewrite bind_assoc_at.
    destruct (old_frame_sim s m Hs Hd) as (e & s1 & m1 & E1 & E2 & Hw & Hf & Hd1 & Hsim).
    rewrite (bind_Ret _ _ _ _ _ E1), (bind_Ret _ _ _ _ _ E2).
    destruct e as [e|].
    + exists (Some (n, e)), s1, m1. split; [reflexivity|]. split; [reflexivity|]. split; assumption.
    + specialize (Hsim eq_refl).
      cbv beta iota. unfold get, OldSPI.get, bind. cbv beta iota.
      rewrite (old_obuf_enc s1 m1 mask 8 b Hsim), old_obuf_length.
      pose proof Hsim as (_ & _ & _ & _ & _ & _ & _ & _ & _ & _ & Hc & Ht).
      rewrite tordFlush_ok
        by (first [exact Hc | left; unfold chan_full; rewrite Hc, Ht; reflexivity | cbn; lia]).
      cbn [is_none].
      set (m2 := set_tord _ m1).
      destruct (old_w_write_sim (OldSPI.obuf_loop s1 mask 8 b) s1 m2 Hw) as (e & w' & F1 & F2).
      rewrite F1, F2. destruct e as [e|].
      * do 3 eexists. split; [reflexivity|]. split; [reflexivity|]. split; [reflexivity | exact Hf].
      * destruct (IH (n + 1) (OldSPI.set_w w' s1) (set_drv w' m2))
          as (r & s' & m' & G1 & G2 & G3 & G4).
        { apply sim_write. exact Hsim. }
        { cbn. lia. }
        exists r, s', m'. unfold ret. cbv beta iota. rewrite G1, G2. auto.
Qed.

Lemma sim_as_master (s : OldSPI.SPI) : sim s (as_master s).
Proof. unfold sim. repeat split. Qed.

Lemma old_Write_sim (s : OldSPI.SPI) (data : list Z) :
  0 <= OldSPI.delay s <= 64 -> 0 <= OldSPI.flen s ->
  exists r s' m', OldSPI.Write data s = Ret r s' /\ Write data (as_master s) = Ret r m' /\
    drv m' = OldSPI.w s' /\ fn m' = OldSPI.bif s'.
Proof.
  intros Hd Hf. unfold OldSPI.Write, Write, OldSPI.get, get, bind at 1 3.
  assert (E : (flen (as_master s) <? 0) = false) by (apply Z.ltb_ge; exact Hf).
  rewrite E.
  destruct (old_write_loop_sim (if OldSPI.lsbf s then 1 else 128) data 0 s (as_master s)
              (sim_as_master s) Hd) as (r & s' & m' & E1 & E2 & H1 & H2).
  change (first_mask (as_master s)) with (if OldSPI.lsbf s then 1 else 128).
  rewrite (bind_Ret _ _ _ _ _ E1), (bind_Ret _ _ _ _ _ E2).
  destruct r as [[k e]|]; do 3 eexists; (split; [reflexivity|]); (split; [reflexivity|]);
    split; eassumption.
Qed.

(** Extra: the older [SPI.Write], on any writer (one that fails included)
    and with a delay of at most 64, returns the same count and error as
    [Master.Write] on the corresponding [Master] (same writer, masks and
    configuration, base 0, [fn] equal to [bif]), leaves the writer in the
    same state and the frame counter at the same value. *)
Theorem OldSPI_Write_as_Master (s : OldSPI.SPI) (data : list Z) :
  0 <= OldSPI.delay s <= 64 -> 0 <= OldSPI.flen s ->
  exists r s' m', OldSPI.Write data s = Ret r s' /\ Write data (as_master s) = Ret r m' /\
    drv m' = OldSPI.w s' /\ fn m' = OldSPI.bif s'.
Proof. exact (old_Write_sim s data). Qed.

Lemma OldSPI_Write_as_Master_witness :
  (0 <= OldSPI.delay t_old <= 64 /\ 0 <= OldSPI.flen t_old) /\
  exists r s' m', OldSPI.Write [85; 170; 15] t_old = Ret r s' /\
    Write [85; 170; 15] (as_master t_old) = Ret r m' /\
    drv m' = OldSPI.w s' /\ fn m' = OldSPI.bif s'.
Proof.
  split; [vm_compute; split; [split; discriminate | discriminate]|].
  apply OldSPI_Write_as_Master; vm_compute; [split; discriminate | discriminate].
Defined.

Lemma old_w_write_ok (p : list Z) (s : OldSPI.SPI) : dfail (OldSPI.w s) = None ->
  OldSPI.w_write p s = Ret None (OldSPI.set_w (mkDriver (dout (OldSPI.w s) ++ p) None) s).
Proof.
  intros H. destruct s as [[o df] ? ? ? ? ? ? ? ? ? ?]; cbn in H; subst. reflexivity.
Qed.

Lemma old_idle_ok (k : nat) (p : list Z) : forall (s : OldSPI.SPI), dfail (OldSPI.w s) = None ->
  OldSPI.idle_loop k p s =
  Ret None (OldSPI.set_w (mkDriver (dout (OldSPI.w s) ++ concat (repeat p k)) None) s).
Proof.
  induction k as [|k IH]; intros s H.
  - destruct s as [[o df] ? ? ? ? ? ? ? ? ? ?]; cbn in H; subst.
    cbn. rewrite app_nil_r. reflexivity.
  - cbn [OldSPI.idle_loop]. unfold bind. rewrite old_w_write_ok by exact H.
    rewrite IH by reflexivity. cbn. rewrite app_assoc. reflexivity.
Qed.

Lemma old_frame_ok (s : OldSPI.SPI) (i : Z) :
  dfail (OldSPI.w s) = None -> 0 <= OldSPI.delay s ->
  (OldSPI.delay s = 0 \/ 0 < OldSPI.flen s) -> 0 <= i ->
  (OldSPI.delay s <> 0 -> OldSPI.bif s = fn_at (OldSPI.flen s) i) ->
  OldSPI.frame s =
  Ret None (OldSPI.set_bif (if OldSPI.delay s =? 0 then OldSPI.bif s
                            else fn_at (OldSPI.flen s) (i + 1))
              (OldSPI.set_w (mkDriver (dout (OldSPI.w s) ++
                                       delay_block (as_master s) (OldSPI.flen s) i) None) s)).
Proof.
  intros Hw Hd HF Hi Hb.
  unfold OldSPI.frame, OldSPI.get, bind, delay_block, delay_here, idle_of.
  destruct (Z.eqb_spec (OldSPI.delay s) 0) as [H0|H0].
  - cbn [negb]. unfold ret.
    assert (E : (0 <? delay (as_master s)) = false) by (apply Z.ltb_ge; cbn; lia).
    rewrite E. cbn [andb].
    destruct s as [[o df] ? ? ? ? ? ? ? ? ? ?]; cbn in Hw; subst.
    cbn. rewrite app_nil_r. reflexivity.
  - destruct HF as [HF|HF]; [contradiction|].
    assert (E : (0 <? delay (as_master s)) = true) by (apply Z.ltb_lt; cbn; lia).
    rewrite E. cbn [negb andb]. rewrite (Hb H0).
    destruct (fn_at_step (OldSPI.flen s) i HF Hi) as [E1 E2].
    change (flen (as_master s)) with (OldSPI.flen s). rewrite E1 in E2 |- *.
    destruct ((0 <? i) && (i mod OldSPI.flen s =? 0)).
    + rewrite old_idle_ok by exact Hw. unfold OldSPI.modify, ret. rewrite <- E2.
      rewrite repeat_pair.
      replace (Z.to_nat (2 * delay (as_master s))) with (2 * Z.to_nat (OldSPI.delay s))%nat
        by (cbn [delay as_master]; rewrite Z2Nat.inj_mul by lia; reflexivity).
      destruct s as [[o df] ? ? ? ? ? ? ? ? ? ?]; cbn in Hw |- *; subst. reflexivity.
    + unfold OldSPI.modify, ret. rewrite <- E2. pose proof (Hb H0) as Hb0.
      destruct s as [[o df] ? ? ? ? ? ? ? ? ? ?]; cbn in Hw, Hb0 |- *; subst.
      rewrite app_nil_r. reflexivity.
Qed.

Lemma old_write_loop_ok (mask : Z) (data : list Z) : forall (n i : Z) (s : OldSPI.SPI),
  dfail (OldSPI.w s) = None -> 0 <= OldSPI.delay s ->
  (OldSPI.delay s = 0 \/ 0 < OldSPI.flen s) -> 0 <= i ->
  (OldSPI.delay s <> 0 -> OldSPI.bif s = fn_at (OldSPI.flen s) i) ->
  mask = (if OldSPI.lsbf s then 1 else 128) ->
  exists s', OldSPI.write_loop mask n data s = Ret None s' /\
    OldSPI.w s' = mkDriver (dout (OldSPI.w s) ++ frames_out (as_master s) (OldSPI.flen s) i data) None.
Proof.
  induction data as [|b d IH]; intros n i s Hw Hd HF Hi Hb Hm.
  - exists s. split; [reflexivity|].
    destruct s as [[o df] ? ? ? ? ? ? ? ? ? ?]; cbn in Hw |- *; subst.
    rewrite app_nil_r. reflexivity.
  - cbn [OldSPI.write_loop]. rewrite (bind_Ret _ _ _ _ _ (old_frame_ok s i Hw Hd HF Hi Hb)).
    set (s1 := OldSPI.set_bif _ _).
    unfold OldSPI.get, bind. rewrite old_w_write_ok by reflexivity.
    set (s2 := OldSPI.set_w _ s1).
    destruct (IH (n + 1) (i + 1) s2) as (s' & E & Hs'); try exact HF; try exact Hd; try exact Hm;
      [reflexivity | lia | |].
    + intros H0. unfold s2, s1 in *. cbn in H0 |- *. rewrite (proj2 (Z.eqb_neq _ 0) H0). reflexivity.
    + exists s'. split; [exact E|]. rewrite Hs'.
      assert (Eo : OldSPI.obuf_loop s1 mask 8 b = encode (as_master s) b).
      { rewrite <- (old_obuf_enc s1 (as_master s1) mask 8 b (sim_as_master s1)), Hm.
        unfold encode. apply enc_loop_wire. reflexivity. }
      assert (Ef : frames_out (as_master s2) (OldSPI.flen s2) (i + 1) d =
                   frames_out (as_master s) (OldSPI.flen s) (i + 1) d)
        by (apply frames_wire; reflexivity).
      rewrite Ef. unfold s2 at 1. cbn [OldSPI.w OldSPI.set_w dout]. rewrite Eo.
      unfold s1. cbn [OldSPI.w OldSPI.set_bif OldSPI.set_w dout frames_out].
      rewrite <- !app_assoc. reflexivity.
Qed.

(** Extra: after [NewFrame] (which, like [Begin] and [End], zeroes the byte
    counter), [SPI.Write] on a writer that never fails, with any
    configuration [SPI.Configure] accepts (a delay of at least 0, and a
    positive frame length when the delay is not 0), returns [len(data)]
    and writes the frames of [data]: each byte's sixteen samples, with base
    0, preceded by [2*Delay] idle samples for every byte whose index is a
    positive multiple of [FrameLen]; no idle block comes first, and none at
    all when the delay is 0. *)
Theorem OldSPI_NewFrame_Write (s : OldSPI.SPI) (data : list Z) :
  dfail (OldSPI.w s) = None -> 0 <= OldSPI.delay s ->
  (OldSPI.delay s = 0 \/ 0 < OldSPI.flen s) ->
  exists s', (OldSPI.NewFrame;;; OldSPI.Write data) s = Ret (Z.of_nat (List.length data), None) s' /\
    OldSPI.w s' = mkDriver (dout (OldSPI.w s) ++ frames_out (as_master s) (OldSPI.flen s) 0 data) None.
Proof.
  intros Hw Hd HF. unfold OldSPI.NewFrame, OldSPI.modify, bind at 1.
  set (s0 := OldSPI.set_bif 0 s).
  destruct (old_write_loop_ok (if OldSPI.lsbf s0 then 1 else 128) data 0 0 s0)
    as (s' & E & Hs'); try exact Hw; try exact Hd; try exact HF; [lia | reflexivity | reflexivity |].
  unfold OldSPI.Write, OldSPI.get, bind. rewrite E. exists s'. split; [reflexivity|].
  rewrite Hs'. f_equal. f_equal. apply frames_wire. reflexivity.
Qed.

Lemma OldSPI_NewFrame_Write_witness :
  (dfail (OldSPI.w (OldSPI.set_delay 100 t_old_ok)) = None /\
   0 <= OldSPI.delay (OldSPI.set_delay 100 t_old_ok) /\
   (OldSPI.delay (OldSPI.set_delay 100 t_old_ok) = 0 \/
    0 < OldSPI.flen (OldSPI.set_delay 100 t_old_ok))) /\
  exists s', (OldSPI.NewFrame;;; OldSPI.Write [85; 170; 15]) (OldSPI.set_delay 100 t_old_ok) =
             Ret (3, None) s' /\
    OldSPI.w s' = mkDriver (dout (OldSPI.w (OldSPI.set_delay 100 t_old_ok)) ++
                            frames_out (as_master (OldSPI.set_delay 100 t_old_ok))
                              (OldSPI.flen (OldSPI.set_delay 100 t_old_ok)) 0 [85; 170; 15]) None.
Proof.
  split; [vm_compute; split; [reflexivity | split; [discriminate | right; reflexivity]] |].
  apply (OldSPI_NewFrame_Write (OldSPI.set_delay 100 t_old_ok) [85; 170; 15]);
    [reflexivity | vm_compute; discriminate | right; vm_compute; reflexivity].
Defined.

(** ** The writer of part_002 *)

Lemma Rev2_latched (s : Master) (e : error) :
  werr s = Some e -> wmtx s = false ->
  (forall d, Rev2.Write d s = Panic "sync: unlock of unlocked mutex" s) /\
  Rev2.End s = Panic "sync: unlock of unlocked mutex" s /\
  Rev2.Flush s = Panic "sync: unlock of unlocked mutex" s /\
  Rev2.Begin s = Ret (Some e) s.
Proof.
  intros He Hm.
  destruct s as [? ? we wm ? ? ? ? ? ? ? ? ? ? ? ? ?]; cbn in He, Hm; subst we wm.
  unfold Rev2.Write, Rev2.End, Rev2.Flush, Rev2.Begin, get, bind, lock, unlock, ret.
  cbn. repeat split.
Qed.

Lemma Rev2_first_fail (s : Master) (b : Z) (d : list Z) :
  wmtx s = true -> werr s = None -> 0 <= flen s -> tst (tord s) = Open ->
  0 <= delay s <= 64 -> dfail (drv s) = Some O ->
  exists s1, Rev2.Write (b :: d) s = Ret (0, Some ErrDriver) s1 /\
    werr s1 = Some ErrDriver /\ wmtx s1 = false /\ drv s1 = drv s.
Proof.
  intros Hm He Hf Hc Hd Hdr.
  destruct s as [[o df] [q c tf] we wm fn0 pre0 post0 sclk0 mosi0 miso0 base0 ci cf c1 ls fl dl];
    cbn in *; subst.
  unfold Rev2.Write, Rev2.write_loop, Rev2.writeBits, Rev2.werror, get, bind, ret, modify,
    incr_fn, unlock, close, drv_write, drv_flush, tordFlush, chan_full, send, panic.
  unfold bind, ret, get, drv_flush.
  cbn. rewrite (proj2 (Z.ltb_ge fl 0) Hf).
  destruct (0 <? dl) eqn:Ep; destruct (fn0 =? fl) eqn:Ef;
    cbn; rewrite ?Ep, ?Ef; cbn; rewrite ?Ep, ?Ef; cbn.
  - apply Z.ltb_lt in Ep.
    replace ((127 <? - dl * 2) || (- dl * 2 <? -128)) with false
      by (symmetry; apply orb_false_iff; split; apply Z.ltb_ge; lia).
    destruct (tf (length q)); cbn; [eexists; repeat split|].
    destruct (Z.to_nat dl) as [|k] eqn:Ek; [lia|]. cbn.
    destruct k; cbn; eexists; repeat split.
  - destruct (tf (length q)); cbn; eexists; repeat split.
  - destruct (tf (length q)); cbn; eexists; repeat split.
  - destruct (tf (length q)); cbn; eexists; repeat split.
Qed.

Lemma Rev2_writeBits_eq (s : Master) (b : Z) :
  dfail (drv s) = None -> tst (tord s) = Open -> 0 <= delay s <= 64 ->
  Rev2.writeBits (Rev2.tobits s b) s = writeByte b (first_mask s) s.
Proof.
  intros Hdr Hc Hd.
  destruct s as [[o df] [q c tf] we wm fn0 pre0 post0 sclk0 mosi0 miso0 base0 ci cf c1 ls fl dl];
    cbn in *; subst.
  unfold Rev2.writeBits, Rev2.tobits, writeByte, frame_delay, get, bind, ret, modify,
    incr_fn, tordFlush, send, panic.
  unfold bind, ret, get, drv_flush, chan_full.
  cbn.
  destruct (0 <? dl) eqn:Ep; destruct (fn0 =? fl) eqn:Ef;
    cbn; rewrite ?Ep, ?Ef; cbn; rewrite ?Ep, ?Ef; cbn;
    try (repeat (match goal with |- context [tf ?n] => destruct (tf n); cbn end);
         reflexivity).
  apply Z.ltb_lt in Ep.
  replace ((127 <? - dl * 2) || (- dl * 2 <? -128)) with false
    by (symmetry; apply orb_false_iff; split; apply Z.ltb_ge; lia).
  destruct (tf (length q)); cbn;
  rewrite idle_loop_ok by reflexivity; cbn;
  repeat (match goal with |- context [tf ?n] => destruct (tf n); cbn end); reflexivity.
Qed.

Lemma Rev2_write_loop_eq (data : list Z) : forall (s : Master) (F i k : Z),
  good s -> flen s = F -> 0 < F -> 0 <= i -> (0 < delay s -> fn s = fn_at F i) ->
  Rev2.write_loop k data s = write_loop (first_mask s) k data s.
Proof.
  induction data as [|b d IH]; intros s F i k Hg Hf HF Hi Hfn; [reflexivity|].
  pose proof Hg as (Hd & Hc & Hde).
  cbn [Rev2.write_loop write_loop]. unfold get, bind at 1.
  rewrite (bind_Ret _ _ _ _ _ (writeByte_ok s F i b Hg Hf HF Hi Hfn)).
  assert (Hd' : 0 <= delay s <= 64) by lia.
  rewrite (bind_Ret _ _ _ _ _ (eq_trans (Rev2_writeBits_eq s b Hd Hc Hd')
                                          (writeByte_ok s F i b Hg Hf HF Hi Hfn))).
  set (s1 := emit s (delay_block s F i ++ encode s b) (delay_dir s F i ++ [16])
               (if 0 <? delay s then fn_at F (i + 1) else fn s)).
  change (first_mask s) with (first_mask s1).
  apply (IH s1 F (i + 1) (k + 1)).
  - apply good_emit. exact Hg.
  - exact Hf.
  - exact HF.
  - lia.
  - cbn. intros Hp. apply Z.ltb_lt in Hp. rewrite Hp. reflexivity.
Qed.

(** Extra: on a driver that never fails, the [Write] of part_002 (with
    [tobits] and [writeBits]) behaves exactly as the [Write] of spi.go: the
    same result, the same bytes to the driver, the same directives and the
    same final state. *)
Theorem Rev2_Write_eq (s : Master) (data : list Z) (i : Z) :
  good s -> werr s = None -> 0 < flen s -> 0 <= i -> (0 < delay s -> fn s = fn_at (flen s) i) ->
  Rev2.Write data s = Write data s.
Proof.
  intros Hg He HF Hi Hfn. unfold Rev2.Write, Write, get, bind. rewrite He.
  rewrite (proj2 (Z.ltb_ge (flen s) 0)) by lia.
  rewrite (Rev2_write_loop_eq data s (flen s) i 0 Hg eq_refl HF Hi Hfn). reflexivity.
Qed.

Lemma Rev2_Write_eq_witness :
  (good (t_open (mkConfig 0 2 1)) /\ werr (t_open (mkConfig 0 2 1)) = None /\
   0 < flen (t_open (mkConfig 0 2 1)) /\ 0 <= 0 /\
   (0 < delay (t_open (mkConfig 0 2 1)) -> fn (t_open (mkConfig 0 2 1)) = fn_at (flen (t_open (mkConfig 0 2 1))) 0)) /\
  Rev2.Write [85; 170; 240] (t_open (mkConfig 0 2 1)) = Write [85; 170; 240] (t_open (mkConfig 0 2 1)).
Proof.
  assert (H : good (t_open (mkConfig 0 2 1)) /\ werr (t_open (mkConfig 0 2 1)) = None /\
   0 < flen (t_open (mkConfig 0 2 1)) /\ 0 <= 0 /\
   (0 < delay (t_open (mkConfig 0 2 1)) -> fn (t_open (mkConfig 0 2 1)) = fn_at (flen (t_open (mkConfig 0 2 1))) 0)).
  { unfold good. vm_compute. repeat split; first [reflexivity | discriminate | intros; reflexivity]. }
  split; [exact H|].
  destruct H as (H1 & H2 & H3 & H4 & H5).
  exact (Rev2_Write_eq (t_open (mkConfig 0 2 1)) [85; 170; 240] 0 H1 H2 H3 H4 H5).
Defined.

(** Extra: in part_002, a [Write] whose first driver write fails returns
    [(0, err)] with the error latched, nothing written, and the mutex
    released by [werror]; a later [Write], [End] or [Flush] of the same
    transaction then unlocks the unlocked mutex, a fatal error, while a new
    [Begin] returns the latched error and leaves the mutex free. *)
Theorem Rev2_Write_error_unlock (s : Master) (b : Z) (d : list Z) :
  wmtx s = true -> werr s = None -> 0 <= flen s -> tst (tord s) = Open ->
  0 <= delay s <= 64 -> dfail (drv s) = Some O ->
  exists s1, Rev2.Write (b :: d) s = Ret (0, Some ErrDriver) s1 /\
    werr s1 = Some ErrDriver /\ wmtx s1 = false /\ drv s1 = drv s /\
    (forall d', Rev2.Write d' s1 = Panic "sync: unlock of unlocked mutex" s1) /\
    Rev2.End s1 = Panic "sync: unlock of unlocked mutex" s1 /\
    Rev2.Flush s1 = Panic "sync: unlock of unlocked mutex" s1 /\
    Rev2.Begin s1 = Ret (Some ErrDriver) s1.
Proof.
  intros Hm He Hf Hc Hd Hdr.
  destruct (Rev2_first_fail s b d Hm He Hf Hc Hd Hdr) as (s1 & E & He1 & Hm1 & Hd1).
  destruct (Rev2_latched s1 ErrDriver He1 Hm1) as (L1 & L2 & L3 & L4).
  exists s1. repeat split; assumption.
Qed.

Lemma Rev2_Write_error_unlock_witness :
  (wmtx t_rev2_fail = true /\ werr t_rev2_fail = None /\ 0 <= flen t_rev2_fail /\
   tst (tord t_rev2_fail) = Open /\ 0 <= delay t_rev2_fail <= 64 /\
   dfail (drv t_rev2_fail) = Some O) /\
  exists s1, Rev2.Write [85; 170] t_rev2_fail = Ret (0, Some ErrDriver) s1 /\
    Rev2.End s1 = Panic "sync: unlock of unlocked mutex" s1 /\
    Rev2.Begin s1 = Ret (Some ErrDriver) s1.
Proof.
  assert (H : wmtx t_rev2_fail = true /\ werr t_rev2_fail = None /\ 0 <= flen t_rev2_fail /\
   tst (tord t_rev2_fail) = Open /\ 0 <= delay t_rev2_fail <= 64 /\
   dfail (drv t_rev2_fail) = Some O).
  { vm_compute. repeat split; first [reflexivity | discriminate]. }
  split; [exact H|].
  destruct H as (H1 & H2 & H3 & H4 & H5 & H6).
  destruct (Rev2_Write_error_unlock t_rev2_fail 85 [170] H1 H2 H3 H4 H5 H6)
    as (s1 & E & _ & _ & _ & _ & L2 & _ & L4).
  exists s1. split; [exact E|]. split; assumption.
Defined.

(** Extra: on a driver that never fails, the [End] of part_002 does what the
    [End] of spi.go does (the idle sample for CPHA0, the post bytes, their
    discard directive, the driver's Flush, the unlock) and in addition sends
    the flush mark 0 on the coordinator after the discard directive. *)
Theorem Rev2_End_flush_mark (s : Master) :
  good s -> werr s = None -> wmtx s = true -> Z.of_nat (List.length (post s)) + 1 <= 128 ->
  exists s1, End s = Ret None s1 /\
    Rev2.End s = Ret None (set_tord (mkCoord (tq (tord s1) ++ [0]) Open (tfull (tord s1))) s1).
Proof.
  intros Hg He Hw Hp. rewrite End_ok by assumption. eexists. split; [reflexivity|].
  destruct Hg as (Hd & Hc & _).
  destruct s as [[dd df] [q cl tf] we wm f pr po sc mo mi ba ci cf c1 ls fl de];
    simpl in *; subst.
  unfold Rev2.End, modify, get, bind, ret, unlock. simpl.
  rewrite tordFlush_ok by (first [tf_side | idtac]; simpl; try reflexivity; destruct c1; lia).
  destruct po, c1; simpl; rewrite ?tordFlush_ok by (first [tf_side | idtac]; simpl; first [reflexivity | lia]);
    simpl; unfold emit; simpl; rewrite ?app_nil_r, <- ?app_assoc; reflexivity.
Qed.

Lemma Rev2_End_flush_mark_witness :
  (good t_rev2_open /\ werr t_rev2_open = None /\ wmtx t_rev2_open = true /\
   Z.of_nat (List.length (post t_rev2_open)) + 1 <= 128) /\
  exists s1, End t_rev2_open = Ret None s1 /\
    Rev2.End t_rev2_open = Ret None (set_tord (mkCoord (tq (tord s1) ++ [0]) Open (tfull (tord s1))) s1).
Proof.
  assert (H : good t_rev2_open /\ werr t_rev2_open = None /\ wmtx t_rev2_open = true /\
   Z.of_nat (List.length (post t_rev2_open)) + 1 <= 128).
  { unfold good. vm_compute. repeat split; first [reflexivity | discriminate]. }
  split; [exact H|]. destruct H as (H1 & H2 & H3 & H4).
  exact (Rev2_End_flush_mark t_rev2_open H1 H2 H3 H4).
Defined.

Lemma keeps_Rev2_writeBits bits : keeps (Rev2.writeBits bits).
Proof.
  unfold Rev2.writeBits, incr_fn. cbv zeta. keeps_tac; apply keeps_tordFlush.
Qed.

Lemma Rev2_wn_loop_eq (b : Z) (bits : list Z) (r : nat) :
  forall k s, bits = Rev2.tobits s b ->
  Rev2.wn_loop bits k r s = Rev2.write_loop k (repeat b r) s.
Proof.
  induction r as [|r IH]; intros k s Hb; [reflexivity|].
  cbn [Rev2.wn_loop repeat Rev2.write_loop].
  rewrite (bind_Ret get _ s s s eq_refl). cbv beta. rewrite <- Hb.
  destruct (Rev2.writeBits bits s) as [a2 s2|m s2|s2] eqn:E; run_at E; try reflexivity.
  destruct a2 as [e|]; [reflexivity|].
  destruct (keeps_Rev2_writeBits bits s None s2 E) as [Hw _].
  apply IH. rewrite Hb. unfold Rev2.tobits.
  assert (Hl : first_mask s2 = first_mask s)
    by (unfold wire in Hw; injection Hw as _ _ _ _ _ Hl _; unfold first_mask; rewrite Hl; reflexivity).
  rewrite Hl. apply enc_loop_wire. congruence.
Qed.

Lemma Rev2_ws_loop_eq (str : string) (r : nat) :
  forall k s, (k + r = String.length str)%nat ->
  Rev2.ws_loop str k r s = Rev2.write_loop (Z.of_nat k) (skipn k (bytes_of_string str)) s.
Proof.
  induction r as [|r IH]; intros k s Hk.
  - rewrite skipn_all2 by (rewrite length_bytes_of_string; lia). reflexivity.
  - destruct (string_get_skipn str k ltac:(lia)) as (c & Hg & Hs).
    cbn [Rev2.ws_loop]. rewrite Hg. unfold bytes_of_string. rewrite skipn_map, Hs.
    cbn [map Rev2.write_loop]. unfold bind at 1 3, get.
    unfold bind.
    destruct (Rev2.writeBits (Rev2.tobits s (byte_of c)) s) as [[e|] s'| |]; try reflexivity.
    rewrite IH by lia. unfold bytes_of_string. rewrite skipn_map.
    replace (Z.of_nat (S k)) with (Z.of_nat k + 1) by lia. reflexivity.
Qed.

(** Extra: the write entry points of part_002 agree: [WriteString str] is
    [Write] of the bytes of [str], [WriteN b n] with [n >= 0] is [Write] of
    [n] copies of [b] (its window, encoded once, is the one [Write] encodes
    for each copy), driver errors and the latched error included, whenever
    no panic message is involved (an error is latched or [flen >= 0]); a
    negative [n] writes nothing and returns [(n, nil)]. *)
Theorem Rev2_write_entry_points (s : Master) (str : string) (b n : Z) :
  (werr s <> None \/ 0 <= flen s -> Rev2.WriteString str s = Rev2.Write (bytes_of_string str) s) /\
  (werr s <> None \/ 0 <= flen s -> 0 <= n -> Rev2.WriteN b n s = Rev2.Write (repeat b (Z.to_nat n)) s) /\
  (werr s = None -> 0 <= flen s -> n < 0 -> Rev2.WriteN b n s = Ret (n, None) s).
Proof.
  split; [|split].
  - intros Hf. unfold Rev2.WriteString, Rev2.Write, get, bind at 1 4.
    destruct (werr s) as [e|] eqn:He; [reflexivity|].
    destruct Hf as [Hf|Hf]; [congruence|].
    replace (flen s <? 0) with false by (symmetry; apply Z.ltb_ge; lia).
    unfold bind. rewrite (Rev2_ws_loop_eq str (String.length str) 0 s) by lia. cbn [skipn Z.of_nat].
    rewrite length_bytes_of_string. reflexivity.
  - intros Hf Hn. unfold Rev2.WriteN, Rev2.Write, get, bind at 1 4.
    destruct (werr s) as [e|]; [reflexivity|].
    destruct Hf as [Hf|Hf]; [congruence|].
    replace (flen s <? 0) with false by (symmetry; apply Z.ltb_ge; lia). cbv zeta.
    unfold bind. rewrite (Rev2_wn_loop_eq b (Rev2.tobits s b) (Z.to_nat n) 0 s eq_refl).
    rewrite repeat_length, Z2Nat.id by exact Hn. reflexivity.
  - intros He Hf Hn. unfold Rev2.WriteN, get, bind. rewrite He.
    replace (flen s <? 0) with false by (symmetry; apply Z.ltb_ge; lia).
    replace (Z.to_nat n) with O by lia. reflexivity.
Qed.

Lemma Rev2_write_entry_points_witness :
  Rev2.WriteString "U" t_rev2_fail = Rev2.Write [85] t_rev2_fail /\
  Rev2.WriteN 85 2 t_rev2_open = Rev2.Write [85; 85] t_rev2_open /\
  Rev2.WriteN 85 (-1) t_rev2_open = Ret (-1, None) t_rev2_open.
Proof.
  destruct (Rev2_write_entry_points t_rev2_fail "U" 85 2) as (A & _ & _).
  destruct (Rev2_write_entry_points t_rev2_open "U" 85 2) as (_ & B & _).
  destruct (Rev2_write_entry_points t_rev2_open "U" 85 (-1)) as (_ & _ & C).
  split; [exact (A ltac:(right; vm_compute; discriminate))|].
  split; [exact (B ltac:(right; vm_compute; discriminate) ltac:(lia))|].
  exact (C ltac:(vm_compute; reflexivity) ltac:(vm_compute; discriminate) ltac:(lia)).
Defined.

Lemma Rev2_readn_loop_eq (ma : Master) (rem : nat) :
  forall k r, Rev2.readn_loop k rem r =
    (x <- Rev2.read_loop ma k rem;; let '(j, e, _) := x in ret (j, e)) r.
Proof.
  induction rem as [|n IH]; intros k r; [reflexivity|].
  cbn [Rev2.readn_loop Rev2.read_loop]. unfold bind at 1 3 4.
  destruct (Rev2.discard true r) as [[e|] r1|m r1|r1]; try reflexivity.
  unfold bind at 1 2 3. unfold Rev2.readBits at 1 2.
  destruct (read_full 16 (rin r1)) as [[bs rest] err].
  destruct (match err with
            | Some EOF => Some ErrUnexpectedEOF
            | Some e => Some e
            | None => if Nat.eqb (List.length bs) 16 then None else Some ErrUnexpectedEOF
            end) as [e|]; [reflexivity|].
  rewrite IH. unfold bind.
  destruct (Rev2.read_loop ma (k + 1) n _) as [[[j e] ds] r3|m r3|r3]; reflexivity.
Qed.

(** Extra: in the second Master version, [ReadN n] with [n >= 0] consumes
    the reader exactly as [Read] of an [n]-byte buffer does and returns the
    same count and error, only without the bytes; [ReadN 0], like [Read] of
    an empty buffer, only discards up to the next data bit or Flush mark;
    a negative [n] reads nothing and returns [(0, nil)]. *)
Theorem Rev2_ReadN_Read (ma : Master) (n : Z) (r : Reader) :
  (0 <= n -> Rev2.ReadN n r =
     (x <- Rev2.Read ma (Z.to_nat n);; let '(j, e, _) := x in ret (j, e)) r) /\
  (n < 0 -> Rev2.ReadN n r = Ret (0, None) r).
Proof.
  split; intros Hn.
  - unfold Rev2.ReadN, Rev2.Read.
    destruct (Z.eqb_spec n 0) as [->|Hne].
    + cbn [Z.to_nat]. unfold bind.
      destruct (Rev2.discard false r) as [a r1|m r1|r1]; reflexivity.
    + destruct (Z.to_nat n) as [|k] eqn:Ek; [lia|].
      rewrite <- Ek. apply Rev2_readn_loop_eq.
  - unfold Rev2.ReadN. replace (n =? 0) with false by (symmetry; apply Z.eqb_neq; lia).
    replace (Z.to_nat n) with O by lia. reflexivity.
Qed.

Lemma Rev2_ReadN_Read_witness :
  Rev2.ReadN 1 (reader_of (t_plain [85]) (dout (drv (t_plain [85])))) =
    (x <- Rev2.Read (t_plain [85]) 1;; let '(j, e, _) := x in ret (j, e))
      (reader_of (t_plain [85]) (dout (drv (t_plain [85])))) /\
  Rev2.ReadN (-1) (reader_of (t_plain [85]) (dout (drv (t_plain [85])))) =
    Ret (0, None) (reader_of (t_plain [85]) (dout (drv (t_plain [85])))).
Proof.
  split.
  - exact (proj1 (Rev2_ReadN_Read (t_plain [85]) 1 _) ltac:(lia)).
  - exact (proj2 (Rev2_ReadN_Read (t_plain [85]) (-1) _) ltac:(lia)).
Defined.
